(** * Virtual keyboard: key-event interpretation

    A shallow embedding of [src/index.ts] (the class [VirtualKeyBoard]
    with its two lookup tables) and the properties of its key handler,
    its voice bookkeeping, its settings and its subscriber list.

    The class is embedded twice, the two embeddings differing in the
    numbers only.
    - In the first, the numbers that the program uses as counters and
      settings ([octave], [velocity], [activeVoices], voice
      identifiers) are integers, [Z], and the frequencies of the note
      table are rationals, [Q], the product of [freqCorrection] being
      [NaN] where a factor is [undefined].  This is the class on a
      keyboard built with integers, as long as the numbers stay exact
      in binary64; it carries the properties of the handler's control
      flow.
    - In the second, module [Double], every number is a binary64
      floating-point number, as at run time.  It carries the
      properties that are about any number a caller may pass.

    Modelling choices common to both.
    - A string is the sequence of bytes of its UTF-8 encoding.
    - The objects used as dictionaries ([keyToNoteMap],
      [keyToCommandsMap], [heldKeys]) are finite maps over strings for
      their own properties; a read [obj[key]] that finds no own
      property goes on to the members of [Object.prototype], while
      [hasOwnProperty], [delete] and [Object.keys] see own properties
      only.  The own keys of [heldKeys] are keys in lower case, as the
      handler writes them.
    - A handler call runs in a small monad that threads the keyboard
      object, collects the calls of [emit], and stops at a thrown
      [TypeError] keeping the mutations done so far.
    - Callbacks are opaque: a callback is known by its identity, it
      returns normally and does not call back into the keyboard.
    - Of [window] only the listener table is kept; [bind] gives a new
      function object at every evaluation. *)

From Stdlib Require Import Floats.
From Stdlib Require Import ZArith QArith Qpower Lia Ascii String.
From stdpp Require Import gmap strings list fin_maps.

Local Open Scope string_scope.
Local Open Scope list_scope.
Local Open Scope Z_scope.

(** ** Data *)

(** What [keyToNoteMap[key]] gives when it is defined: an entry of the
    table, [{ note: 'C', freq: 16.35 }], or the member of
    [Object.prototype] of that name.  [note] and [freq] are the two
    property reads; a member of [Object.prototype] has neither. *)
Module Key.
Inductive entry : Type :=
| Entry (note : string) (freq : Q)
| Member (name : string).

Definition note (e : entry) : option string :=
  match e with
  | Entry n _ => Some n
  | Member _ => None
  end.

Definition freq (e : entry) : option Q :=
  match e with
  | Entry _ f => Some f
  | Member _ => None
  end.
End Key.

(** What [this.heldKeys[key]] gives when it is defined: the number stored
    for the key, or the member of [Object.prototype] of that name. *)
Inductive Voice : Type :=
| Number (n : Z)
| Inherited (name : string).
Coercion Number : Z >-> Voice.

(** A frequency: the product of [freqCorrection], which is [NaN] when
    its argument is [undefined]. *)
Inductive Frequency : Type :=
| Hz (q : Q)
| NotANumber.

(** [state?: string | number | boolean] of [IActionData]. *)
Inductive StateValue : Type :=
| SString (s : string)
| SNumber (n : Z)
| SBool (b : bool).

(** [interface IActionData]: every field is optional; [None] is a field
    that is absent or [undefined]. *)
Record IActionData : Type := ActionData {
  note : option Key.entry;
  freq : option Frequency;
  voice : option Voice;
  state : option StateValue;
  command : option string
}.

(** [interface INoteData]. *)
Record INoteData : Type := NoteData {
  action : string;
  data : IActionData
}.

(** The two fields of a [KeyboardEvent] that the handler reads. *)
Record KeyboardEvent : Type := KeyEvent {
  key : string;
  type : string
}.

(** A subscriber is a function object; the program only compares
    subscribers by identity ([indexOf]) and calls them. *)
Definition Callback : Type := nat.

(** [class VirtualKeyBoard]. *)
Record VirtualKeyBoard : Type := Board {
  octave : Z;
  velocity : Z;
  holdMode : bool;
  heldKeys : gmap string Z;
  subscribers : list Callback;
  activeVoices : Z
}.

(** One call of [emit]: the object passed and the subscribers that
    were called with it, in calling order. *)
Record Emission : Type := Emitted {
  payload : INoteData;
  receivers : list Callback
}.

(** ** The lookup tables *)

Definition note_entries : list (string * Key.entry) :=
  [
    ("a", Key.Entry "C"  16.35%Q);
    ("w", Key.Entry "C#" 17.32%Q);
    ("s", Key.Entry "D"  18.35%Q);
    ("e", Key.Entry "D#" 19.45%Q);
    ("d", Key.Entry "E"  20.60%Q);
    ("f", Key.Entry "F"  21.83%Q);
    ("t", Key.Entry "F#" 23.12%Q);
    ("g", Key.Entry "G"  24.50%Q);
    ("y", Key.Entry "G#" 25.96%Q);
    ("h", Key.Entry "A"  27.50%Q);
    ("u", Key.Entry "A#" 29.14%Q);
    ("j", Key.Entry "B"  30.87%Q);
    ("k", Key.Entry "C"  32.70%Q);
    ("o", Key.Entry "C#" 34.65%Q);
    ("l", Key.Entry "D"  36.71%Q);
    ("p", Key.Entry "D#" 38.89%Q)
  ].

Definition keyToNoteMap : gmap string Key.entry := list_to_map note_entries.

Definition command_entries : list (string * string) :=
  [
    ("z", "octave-down");
    ("x", "octave-up");
    ("c", "velocity-down");
    ("v", "velocity-up");
    ("b", "hold-mode")
  ].

Definition keyToCommandsMap : gmap string string := list_to_map command_entries.

(** The tables are looked up, never unfolded, during simplification. *)
#[global] Arguments keyToNoteMap : simpl never.
#[global] Arguments keyToCommandsMap : simpl never.

(** ** Reading and writing plain objects *)

(** The property names of [Object.prototype], the prototype of the two
    tables and of [heldKeys] (all three are object literals).  Each
    names a function, but ["__proto__"], an accessor whose getter gives
    [Object.prototype] itself; all these values are objects. *)
Definition object_prototype_names : list string :=
  ["constructor"; "__defineGetter__"; "__defineSetter__"; "hasOwnProperty";
   "__lookupGetter__"; "__lookupSetter__"; "isPrototypeOf";
   "propertyIsEnumerable"; "toString"; "valueOf"; "__proto__";
   "toLocaleString"].

(** The outcome of a read [obj[key]] that is not [undefined]: an own
    property, or the member of [Object.prototype] of that name. *)
Inductive Found (V : Type) : Type :=
| Own (v : V)
| Proto (name : string).
Arguments Own {V} v.
Arguments Proto {V} name.

(** [obj[key]]: own properties first, then [Object.prototype]. *)
Definition read {V : Type} (obj : gmap string V) (k : string) : option (Found V) :=
  match obj !! k with
  | Some v => Some (Own v)
  | None => if bool_decide (k ∈ object_prototype_names) then Some (Proto k) else None
  end.

(** [keyToNoteMap[key]]. *)
Definition read_note (k : string) : option Key.entry :=
  match read keyToNoteMap k with
  | Some (Own e) => Some e
  | Some (Proto name) => Some (Key.Member name)
  | None => None
  end.

(** [this.heldKeys[key]]. *)
Definition read_held (held : gmap string Z) (k : string) : option Voice :=
  match read held k with
  | Some (Own v) => Some (Number v)
  | Some (Proto name) => Some (Inherited name)
  | None => None
  end.

(** [this.heldKeys[key] = voice].  The name ["__proto__"] reaches the
    setter of the accessor, which ignores a number, unless the object
    has an own property of that name; any other name is an own property
    from then on. *)
Definition write {V : Type} (k : string) (v : V) (held : gmap string V)
    : gmap string V :=
  if decide (k = "__proto__") then
    match held !! k with
    | Some _ => <[k := v]> held
    | None => held
    end
  else <[k := v]> held.

#[global] Arguments read : simpl never.
#[global] Arguments read_note : simpl never.
#[global] Arguments read_held : simpl never.
#[global] Arguments write : simpl never.

(** ** Helpers *)

(** [limitTo = (num, min, max) => Math.min(Math.max(num, min), max)]. *)
Definition limitTo (num min max : Z) : Z := Z.min (Z.max num min) max.

(** [String.prototype.toLowerCase].  A string is the sequence of the
    bytes of its UTF-8 encoding.  The letters A to Z become a to z, and
    the Kelvin sign, U+212A, becomes k: it is the one character outside
    ASCII whose lower-case form is in ASCII.  The other characters
    outside ASCII are left as they are: their lower-case forms have a
    character outside ASCII too, which no key of the tables and no
    property name of [Object.prototype] has, and the handler treats
    all strings that are none of these alike. *)
Definition lower_ascii (c : ascii) : ascii :=
  let n := N_of_ascii c in
  if ((65 <=? n) && (n <=? 90))%N then ascii_of_N (n + 32) else c.

(** The three bytes of the Kelvin sign in UTF-8. *)
Definition is_kelvin (c1 c2 c3 : ascii) : bool :=
  bool_decide (c1 = "226"%char) && bool_decide (c2 = "132"%char) &&
  bool_decide (c3 = "170"%char).

Fixpoint toLowerCase (s : string) : string :=
  match s with
  | EmptyString => EmptyString
  | String c1 s1 =>
      match s1 with
      | String c2 (String c3 rest) =>
          if is_kelvin c1 c2 c3 then String "k" (toLowerCase rest)
          else String (lower_ascii c1) (toLowerCase s1)
      | _ => String (lower_ascii c1) (toLowerCase s1)
      end
  end.

(** [Array.prototype.indexOf]: the first index holding [c], or [-1]. *)
Fixpoint indexOf (l : list Callback) (c : Callback) : Z :=
  match l with
  | [] => -1
  | x :: l' =>
      if decide (x = c) then 0
      else let i := indexOf l' c in if i <? 0 then -1 else i + 1
  end.

(** [l.splice(position, 1)] for [0 <= position]: drop that one element. *)
Definition splice1 (position : Z) (l : list Callback) : list Callback :=
  take (Z.to_nat position) l ++ drop (S (Z.to_nat position)) l.

(** ** The handler monad *)

Inductive Completion (A : Type) : Type :=
| Normal (a : A)
| Throw (error : string).
Arguments Normal {A} a.
Arguments Throw {A} error.

Record Result (A : Type) : Type := Res {
  completion : Completion A;
  this : VirtualKeyBoard;
  emitted : list Emission
}.
Arguments Res {A} _ _ _.
Arguments completion {A} _.
Arguments this {A} _.
Arguments emitted {A} _.

Definition M (A : Type) : Type := VirtualKeyBoard -> Result A.

Definition ret {A} (a : A) : M A := fun st => Res (Normal a) st [].

Definition bind {A B} (m : M A) (f : A -> M B) : M B := fun st =>
  match m st with
  | Res (Normal a) st' out =>
      match f a st' with
      | Res c st'' out' => Res c st'' (out ++ out')
      end
  | Res (Throw e) st' out => Res (Throw e) st' out
  end.

Definition throw {A} (e : string) : M A := fun st => Res (Throw e) st [].
Definition get : M VirtualKeyBoard := fun st => Res (Normal st) st [].
Definition when (b : bool) (m : M unit) : M unit := if b then m else ret tt.

(** The monad is used through stdpp's [x ← m; k] and [m;; k]. *)
#[global] Instance M_ret : MRet M := @ret.
#[global] Instance M_bind : MBind M := fun A B f m => bind m f.

(** Field assignments [this.f = v]. *)
Definition set_octave (v : Z) : M unit := fun st =>
  Res (Normal tt) (Board v (velocity st) (holdMode st) (heldKeys st) (subscribers st) (activeVoices st)) [].
Definition set_velocity (v : Z) : M unit := fun st =>
  Res (Normal tt) (Board (octave st) v (holdMode st) (heldKeys st) (subscribers st) (activeVoices st)) [].
Definition set_holdMode (v : bool) : M unit := fun st =>
  Res (Normal tt) (Board (octave st) (velocity st) v (heldKeys st) (subscribers st) (activeVoices st)) [].
Definition set_heldKeys (v : gmap string Z) : M unit := fun st =>
  Res (Normal tt) (Board (octave st) (velocity st) (holdMode st) v (subscribers st) (activeVoices st)) [].
Definition set_subscribers (v : list Callback) : M unit := fun st =>
  Res (Normal tt) (Board (octave st) (velocity st) (holdMode st) (heldKeys st) v (activeVoices st)) [].
Definition set_activeVoices (v : Z) : M unit := fun st =>
  Res (Normal tt) (Board (octave st) (velocity st) (holdMode st) (heldKeys st) (subscribers st) v) [].

(** ** The class *)

(** [constructor (octave = 1, velocity = 100)]; [None] is an omitted
    argument. *)
Definition constructor (octave velocity : option Z) : VirtualKeyBoard :=
  Board (default 1 octave) (default 100 velocity) false ∅ [] 0.

(** [subscribe (callback)]; [get] at the end is [return this]. *)
Definition subscribe (callback : Callback) : M VirtualKeyBoard :=
  st ← get;
  if negb (indexOf (subscribers st) callback <? 0) then get
  else set_subscribers (subscribers st ++ [callback]);; get.

(** [unsubscribe (callback)]; [get] at the end is [return this]. *)
Definition unsubscribe (callback : Callback) : M VirtualKeyBoard :=
  st ← get;
  let position := indexOf (subscribers st) callback in
  if position <? 0 then get
  else set_subscribers (splice1 position (subscribers st));; get.

(** [emit (data)]: [this.subscribers.map(f => f(data)); return data]. *)
Definition emit (d : INoteData) : M INoteData := fun st =>
  Res (Normal d) st [Emitted d (subscribers st)].

(** [freqCorrection (freq)]: [freq * Math.pow(2, this.octave)]; the
    product is [NaN] when [freq] is [undefined]. *)
Definition freqCorrection (f : option Q) : M Frequency :=
  st ← get;
  mret (match f with
        | Some q => Hz (q * (2 # 1) ^ octave st)%Q
        | None => NotANumber
        end).

(** Reading [note.freq]: a [TypeError] when [note] is [undefined]. *)
Definition note_freq (n : option Key.entry) : M (option Q) :=
  match n with
  | Some e => mret (Key.freq e)
  | None => throw "TypeError"
  end.

(** The [switch (command)] of the handler; its value is [data], which
    starts as [{}] and stays so when no [case] matches. *)
Definition command_switch (c : string) : M IActionData :=
  if decide (c = "octave-up") then
    st ← get;
    set_octave (limitTo (octave st + 1) (-8) 8);;
    st ← get;
    mret (ActionData None None None (Some (SNumber (octave st))) (Some c))
  else if decide (c = "octave-down") then
    st ← get;
    set_octave (limitTo (octave st - 1) (-8) 8);;
    st ← get;
    mret (ActionData None None None (Some (SNumber (octave st))) (Some c))
  else if decide (c = "velocity-up") then
    st ← get;
    set_velocity (limitTo (velocity st + 5) 0 127);;
    st ← get;
    mret (ActionData None None None (Some (SNumber (velocity st))) (Some c))
  else if decide (c = "velocity-down") then
    st ← get;
    set_velocity (limitTo (velocity st - 5) 0 127);;
    st ← get;
    mret (ActionData None None None (Some (SNumber (velocity st))) (Some c))
  else if decide (c = "hold-mode") then
    st ← get;
    set_holdMode (negb (holdMode st));;
    st ← get;
    mret (ActionData None None None (Some (SBool (holdMode st))) (Some c))
  else mret (ActionData None None None None None).

(** The same for whatever [keyToCommandsMap[key]] gave: a member of
    [Object.prototype] matches no [case]. *)
Definition command_data (c : Found string) : M IActionData :=
  match c with
  | Own word => command_switch word
  | Proto _ => mret (ActionData None None None None None)
  end.

(** The [keydown] block.  A note entry and a member of
    [Object.prototype] are objects and a command word is a non-empty
    string, so [if (note && ..)] and [if (command)] test whether the
    read found something; [data] is an object, so [if (data)] always
    passes.  [this.heldKeys.hasOwnProperty] is the method of
    [Object.prototype], which looks at own properties only: no own key
    of [heldKeys] hides it, own keys being in lower case. *)
Definition on_keydown (k : string) (n : option Key.entry)
    (c : option (Found string)) : M unit :=
  st ← get;
  let doTrigger := negb (bool_decide (is_Some (heldKeys st !! k))) || holdMode st in
  match n with
  | Some e =>
      when doTrigger (
        st ← get;
        let v := activeVoices st in
        set_activeVoices (v + 1);;
        st ← get;
        set_heldKeys (write k v (heldKeys st));;
        f ← freqCorrection (Key.freq e);
        _ ← emit (NoteData "date"
               (ActionData (Some e) (Some f) (Some (Number v))
                  (Some (SString "on")) None));
        mret tt)
  | None => mret tt
  end;;
  match c with
  | Some cmd =>
      d ← command_data cmd;
      _ ← emit (NoteData "settings" d);
      mret tt
  | None => mret tt
  end.

(** The [keyup] block.  The entry is deleted before [note.freq] is
    read, and the reset at the end is not reached when that throws. *)
Definition on_keyup (k : string) (n : option Key.entry) : M unit :=
  st ← get;
  let heldKey := read_held (heldKeys st) k in
  match heldKey with
  | Some v =>
      when (negb (holdMode st)) (
        set_heldKeys (delete k (heldKeys st));;
        nf ← note_freq n;
        f ← freqCorrection nf;
        _ ← emit (NoteData "gate"
               (ActionData n (Some f) (Some v) (Some (SString "off")) None));
        mret tt)
  | None => mret tt
  end;;
  st ← get;
  when (bool_decide (size (heldKeys st) = 0%nat)) (set_activeVoices 0).

(** [keyHandler (event)]. *)
Definition keyHandler (event : KeyboardEvent) : M unit :=
  let k := toLowerCase (key event) in
  let n := read_note k in
  let c := read keyToCommandsMap k in
  when (bool_decide (type event = "keydown")) (on_keydown k n c);;
  when (bool_decide (type event = "keyup")) (on_keyup k n).

(** The browser delivers key events one at a time; an exception thrown
    by the handler ends that call only. *)
Fixpoint run (evs : list KeyboardEvent) (st : VirtualKeyBoard)
    : VirtualKeyBoard * list Emission :=
  match evs with
  | [] => (st, [])
  | e :: evs' =>
      let r := keyHandler e st in
      let rest := run evs' (this r) in
      (rest.1, emitted r ++ rest.2)
  end.

(** The states a keyboard object goes through. *)
Inductive reachable : VirtualKeyBoard -> Prop :=
| reach_new o v : reachable (constructor o v)
| reach_key st e : reachable st -> reachable (this (keyHandler e st))
| reach_subscribe st c : reachable st -> reachable (this (subscribe c st))
| reach_unsubscribe st c : reachable st -> reachable (this (unsubscribe c st)).

(** The events passed to [emit] during a call, in order. *)
Definition events {A} (r : Result A) : list INoteData := payload <$> emitted r.

Definition press (k : string) : KeyboardEvent := KeyEvent k "keydown".
Definition release (k : string) : KeyboardEvent := KeyEvent k "keyup".

(** ** Vocabulary of the statements *)

(** The state after a triggering press of key [k]. *)
Definition triggered (k : string) (st : VirtualKeyBoard) : VirtualKeyBoard :=
  Board (octave st) (velocity st) (holdMode st)
        (<[k := activeVoices st]> (heldKeys st)) (subscribers st)
        (activeVoices st + 1).

(** The same for a key that names a member of [Object.prototype]. *)
Definition inherited_triggered (k : string) (st : VirtualKeyBoard)
    : VirtualKeyBoard :=
  Board (octave st) (velocity st) (holdMode st)
        (write k (activeVoices st) (heldKeys st)) (subscribers st)
        (activeVoices st + 1).

(** The frequency that [freqCorrection(note.freq)] gives for [n]. *)
Definition corrected_freq (n : Key.entry) (st : VirtualKeyBoard) : Frequency :=
  match Key.freq n with
  | Some q => Hz (q * (2 # 1) ^ octave st)%Q
  | None => NotANumber
  end.

(** The note event built by the handler for entry [n] and voice [v]. *)
Definition note_event (act : string) (n : Key.entry) (v : Voice) (s : string)
    (st : VirtualKeyBoard) : INoteData :=
  NoteData act
    (ActionData (Some n) (Some (corrected_freq n st)) (Some v)
       (Some (SString s)) None).

(** The event emitted for a member of [Object.prototype] found in
    [keyToCommandsMap]: action "settings" with the empty [data]. *)
Definition empty_settings : INoteData :=
  NoteData "settings" (ActionData None None None None None).

(** The effect of a command word on the settings. *)
Definition commanded (c : string) (st : VirtualKeyBoard) : VirtualKeyBoard :=
  if decide (c = "octave-up") then
    Board (limitTo (octave st + 1) (-8) 8) (velocity st) (holdMode st)
          (heldKeys st) (subscribers st) (activeVoices st)
  else if decide (c = "octave-down") then
    Board (limitTo (octave st - 1) (-8) 8) (velocity st) (holdMode st)
          (heldKeys st) (subscribers st) (activeVoices st)
  else if decide (c = "velocity-up") then
    Board (octave st) (limitTo (velocity st + 5) 0 127) (holdMode st)
          (heldKeys st) (subscribers st) (activeVoices st)
  else if decide (c = "velocity-down") then
    Board (octave st) (limitTo (velocity st - 5) 0 127) (holdMode st)
          (heldKeys st) (subscribers st) (activeVoices st)
  else if decide (c = "hold-mode") then
    Board (octave st) (velocity st) (negb (holdMode st))
          (heldKeys st) (subscribers st) (activeVoices st)
  else st.

(** The voice counter is put back to 0 when no key is held. *)
Definition reset_if_idle (st : VirtualKeyBoard) : VirtualKeyBoard :=
  if bool_decide (size (heldKeys st) = 0%nat)
  then Board (octave st) (velocity st) (holdMode st) (heldKeys st)
             (subscribers st) 0
  else st.

(** The state after the release of the held key [k], before the reset. *)
Definition released (k : string) (st : VirtualKeyBoard) : VirtualKeyBoard :=
  Board (octave st) (velocity st) (holdMode st) (delete k (heldKeys st))
        (subscribers st) (activeVoices st).

(** A note event carries [state: 'on'] or [state: 'off']. *)
Definition is_note_on (ev : INoteData) : Prop :=
  state (data ev) = Some (SString "on").
Definition is_note_off (ev : INoteData) : Prop :=
  state (data ev) = Some (SString "off").



(** Key [k] is held and no other held key has voice [v], now or later. *)
Definition stuck (k : string) (v : Z) (st : VirtualKeyBoard) : Prop :=
  is_Some (heldKeys st !! k) /\ v < activeVoices st /\
  forall k2 v2, heldKeys st !! k2 = Some v2 -> k2 <> k -> v2 <> v.

(** The number of times [c] is called for one emission. *)
Definition deliveries (c : Callback) (em : Emission) : nat :=
  length (filter (fun f => f = c) (receivers em)).

(** The arguments of the calls of callback [c] that a list of emissions
    makes, in the order of the calls. *)
Definition calls (c : Callback) (out : list Emission) : list INoteData :=
  em ← out; replicate (deliveries c em) (payload em).

(** What holds of the keyboard object in every state it goes through. *)
Record board_inv (st : VirtualKeyBoard) : Prop := BoardInv {
  inv_held_notes :
    forall k v, heldKeys st !! k = Some v ->
      is_Some (keyToNoteMap !! k) \/ k = "constructor";
  inv_voice_bound :
    forall k v, heldKeys st !! k = Some v -> 0 <= v < activeVoices st;
  inv_voice_inj :
    forall k1 k2 v,
      heldKeys st !! k1 = Some v -> heldKeys st !! k2 = Some v -> k1 = k2;
  inv_counter : 0 <= activeVoices st;
  inv_subscribers : NoDup (subscribers st)
}.

(** Note descriptors are compared when two keys are told apart. *)
#[global] Instance Q_eq_dec : EqDecision Q.
Proof. solve_decision. Defined.
#[global] Instance entry_eq_dec : EqDecision Key.entry.
Proof. solve_decision. Defined.

(** Unfolds a handler call down to the monad's primitives. *)
Ltac unfold_handler :=
  unfold keyHandler, on_keydown, on_keyup, subscribe, unsubscribe;
  cbv zeta;
  unfold mbind, M_bind, mret, M_ret.

Ltac run_handler :=
  unfold bind, ret, get, throw, emit, when, freqCorrection, note_freq,
    empty_settings, note_event, corrected_freq,
    set_octave, set_velocity, set_holdMode, set_heldKeys, set_subscribers,
    set_activeVoices, mbind, M_bind, mret, M_ret, bind, ret;
  simpl.

(** ** Vocabulary of the further properties *)

(** The value that a settings event reports for command word [c]: the
    field of the keyboard that the command's [case] assigns. *)
Definition setting_value (c : string) (st : VirtualKeyBoard) : option StateValue :=
  if decide (c = "octave-up") then Some (SNumber (octave st))
  else if decide (c = "octave-down") then Some (SNumber (octave st))
  else if decide (c = "velocity-up") then Some (SNumber (velocity st))
  else if decide (c = "velocity-down") then Some (SNumber (velocity st))
  else if decide (c = "hold-mode") then Some (SBool (holdMode st))
  else None.

(** The keyboard with its [velocity] field set to [v]. *)
Definition with_velocity (v : Z) (st : VirtualKeyBoard) : VirtualKeyBoard :=
  Board (octave st) v (holdMode st) (heldKeys st) (subscribers st)
        (activeVoices st).

(** A press of one of the two velocity keys. *)
Definition velocity_key (k : string) : Prop :=
  keyToCommandsMap !! k = Some "velocity-up" \/
  keyToCommandsMap !! k = Some "velocity-down".

(** Subscribing the callbacks of a list one after the other, as in
    [kb.subscribe(f).subscribe(g)]. *)
Definition subscribe_all (cs : list Callback) (st : VirtualKeyBoard)
    : VirtualKeyBoard :=
  foldl (fun st c => this (subscribe c st)) st cs.

(** ** Attaching to [window] *)

(** What [activate] and [deactivate] touch of [window]: its table of
    event listeners, each a pair of an event type and a function object,
    in the order they were added.  Function objects are known by their
    identity; [functions] counts the ones created so far. *)
Record Window : Type := Win {
  listeners : list (string * nat);
  functions : nat
}.

(** [this.keyHandler.bind(this)]: every evaluation creates a new
    function object. *)
Definition bind_keyHandler (w : Window) : nat * Window :=
  (functions w, Win (listeners w) (S (functions w))).

(** [window.addEventListener(type, f)]: nothing is added when the same
    function object is already listed for the type. *)
Definition addEventListener (ty : string) (f : nat) (w : Window) : Window :=
  if decide ((ty, f) ∈ listeners w) then w
  else Win (listeners w ++ [(ty, f)]) (functions w).

(** [window.removeEventListener(type, f)]: the entry with this type and
    this very function object is removed, if there is one. *)
Definition removeEventListener (ty : string) (f : nat) (w : Window) : Window :=
  Win (filter (fun x => x <> (ty, f)) (listeners w)) (functions w).

(** [activate ()]; the keyboard object is returned as it is. *)
Definition activate (w : Window) : Window :=
  let (f1, w1) := bind_keyHandler w in
  let w2 := addEventListener "keydown" f1 w1 in
  let (f2, w3) := bind_keyHandler w2 in
  addEventListener "keyup" f2 w3.

(** [deactivate ()]; the keyboard object is returned as it is. *)
Definition deactivate (w : Window) : Window :=
  let (f1, w1) := bind_keyHandler w in
  let w2 := removeEventListener "keydown" f1 w1 in
  let (f2, w3) := bind_keyHandler w2 in
  removeEventListener "keyup" f2 w3.

(** A sequence of calls of the two methods. *)
Inductive WindowCall : Type := Activate | Deactivate.

#[global] Instance WindowCall_eq_dec : EqDecision WindowCall.
Proof. solve_decision. Defined.

Definition window_call (w : Window) (c : WindowCall) : Window :=
  match c with
  | Activate => activate w
  | Deactivate => deactivate w
  end.

Definition window_calls (cs : list WindowCall) (w : Window) : Window :=
  foldl window_call w cs.

(** The listeners of [window] are function objects that exist. *)
Definition window_ok (w : Window) : Prop :=
  forall ty f, (ty, f) ∈ listeners w -> (f < functions w)%nat.

(** The number of listeners of [window] for an event type: how many
    times the handler runs for one event of that type. *)
Definition listening (ty : string) (w : Window) : nat :=
  length (filter (fun x => x.1 = ty) (listeners w)).

(** The number of [Activate] in a sequence of calls. *)
Definition activations (cs : list WindowCall) : nat :=
  length (filter (fun c => c = Activate) cs).

(** * The class with IEEE 754 numbers *)

(** The same class with its numbers as they are at run time: binary64
    floating-point numbers, with [NaN], the infinities and the two
    zeros.  Strings, tables of strings, the subscriber list and the
    reads that reach [Object.prototype] are as above.  [Math.pow] is
    implementation-approximated; it is a parameter of the class. *)
Module Double.

Definition is_pos_zero (x : float) : bool :=
  match classify x with PZero => true | _ => false end.

Definition is_neg_zero (x : float) : bool :=
  match classify x with NZero => true | _ => false end.

(** [Math.max (x, y)]: [NaN] when an argument is [NaN]; [+0] counts as
    larger than [-0]. *)
Definition Math_max (x y : float) : float :=
  if is_nan x || is_nan y then nan
  else if is_neg_zero x && is_pos_zero y then y
  else if (x <? y)%float then y else x.

(** [Math.min (x, y)]: [NaN] when an argument is [NaN]; [-0] counts as
    smaller than [+0]. *)
Definition Math_min (x y : float) : float :=
  if is_nan x || is_nan y then nan
  else if is_pos_zero x && is_neg_zero y then y
  else if (y <? x)%float then y else x.

(** [limitTo = (num, min, max) => Math.min(Math.max(num, min), max)]. *)
Definition limitTo (num min max : float) : float :=
  Math_min (Math_max num min) max.

Module Key.
Inductive entry : Type :=
| Entry (note : string) (freq : float)
| Member (name : string).

Definition freq (e : entry) : option float :=
  match e with
  | Entry _ f => Some f
  | Member _ => None
  end.
End Key.

Inductive Voice : Type :=
| Number (n : float)
| Inherited (name : string).

Inductive StateValue : Type :=
| SString (s : string)
| SNumber (n : float)
| SBool (b : bool).

Record IActionData : Type := ActionData {
  note : option Key.entry;
  freq : option float;
  voice : option Voice;
  state : option StateValue;
  command : option string
}.

Record INoteData : Type := NoteData {
  action : string;
  data : IActionData
}.

Record VirtualKeyBoard : Type := Board {
  octave : float;
  velocity : float;
  holdMode : bool;
  heldKeys : gmap string float;
  subscribers : list Callback;
  activeVoices : float
}.

Record Emission : Type := Emitted {
  payload : INoteData;
  receivers : list Callback
}.

(** The decimal literals denote the nearest binary64 numbers, in
    JavaScript and here. *)
#[local] Set Warnings "-inexact-float".
Definition note_entries : list (string * Key.entry) :=
  [
    ("a", Key.Entry "C"  16.35%float);
    ("w", Key.Entry "C#" 17.32%float);
    ("s", Key.Entry "D"  18.35%float);
    ("e", Key.Entry "D#" 19.45%float);
    ("d", Key.Entry "E"  20.60%float);
    ("f", Key.Entry "F"  21.83%float);
    ("t", Key.Entry "F#" 23.12%float);
    ("g", Key.Entry "G"  24.50%float);
    ("y", Key.Entry "G#" 25.96%float);
    ("h", Key.Entry "A"  27.50%float);
    ("u", Key.Entry "A#" 29.14%float);
    ("j", Key.Entry "B"  30.87%float);
    ("k", Key.Entry "C"  32.70%float);
    ("o", Key.Entry "C#" 34.65%float);
    ("l", Key.Entry "D"  36.71%float);
    ("p", Key.Entry "D#" 38.89%float)
  ].
#[local] Set Warnings "inexact-float".

Definition keyToNoteMap : gmap string Key.entry := list_to_map note_entries.
#[global] Arguments keyToNoteMap : simpl never.

(** [keyToNoteMap[key]]. *)
Definition read_note (k : string) : option Key.entry :=
  match read keyToNoteMap k with
  | Some (Own e) => Some e
  | Some (Proto name) => Some (Key.Member name)
  | None => None
  end.

(** [this.heldKeys[key]]. *)
Definition read_held (held : gmap string float) (k : string) : option Voice :=
  match read held k with
  | Some (Own v) => Some (Number v)
  | Some (Proto name) => Some (Inherited name)
  | None => None
  end.

#[global] Arguments read_note : simpl never.
#[global] Arguments read_held : simpl never.

(** The handler monad, over this keyboard object. *)
Record Result (A : Type) : Type := Res {
  completion : Completion A;
  this : VirtualKeyBoard;
  emitted : list Emission
}.
Arguments Res {A} _ _ _.
Arguments completion {A} _.
Arguments this {A} _.
Arguments emitted {A} _.

Definition M (A : Type) : Type := VirtualKeyBoard -> Result A.

Definition ret {A} (a : A) : M A := fun st => Res (Normal a) st [].

Definition bind {A B} (m : M A) (f : A -> M B) : M B := fun st =>
  match m st with
  | Res (Normal a) st' out =>
      match f a st' with
      | Res c st'' out' => Res c st'' (out ++ out')
      end
  | Res (Throw e) st' out => Res (Throw e) st' out
  end.

Definition throw {A} (e : string) : M A := fun st => Res (Throw e) st [].
Definition get : M VirtualKeyBoard := fun st => Res (Normal st) st [].
Definition when (b : bool) (m : M unit) : M unit := if b then m else ret tt.

#[global] Instance M_ret : MRet M := @ret.
#[global] Instance M_bind : MBind M := fun A B f m => bind m f.

Definition set_octave (v : float) : M unit := fun st =>
  Res (Normal tt) (Board v (velocity st) (holdMode st) (heldKeys st) (subscribers st) (activeVoices st)) [].
Definition set_velocity (v : float) : M unit := fun st =>
  Res (Normal tt) (Board (octave st) v (holdMode st) (heldKeys st) (subscribers st) (activeVoices st)) [].
Definition set_holdMode (v : bool) : M unit := fun st =>
  Res (Normal tt) (Board (octave st) (velocity st) v (heldKeys st) (subscribers st) (activeVoices st)) [].
Definition set_heldKeys (v : gmap string float) : M unit := fun st =>
  Res (Normal tt) (Board (octave st) (velocity st) (holdMode st) v (subscribers st) (activeVoices st)) [].
Definition set_activeVoices (v : float) : M unit := fun st =>
  Res (Normal tt) (Board (octave st) (velocity st) (holdMode st) (heldKeys st) (subscribers st) v) [].

(** [constructor (octave = 1, velocity = 100)]; [None] is an omitted
    argument. *)
Definition constructor (octave velocity : option float) : VirtualKeyBoard :=
  Board (default 1%float octave) (default 100%float velocity) false ∅ [] 0.

(** [emit (data)]. *)
Definition emit (d : INoteData) : M INoteData := fun st =>
  Res (Normal d) st [Emitted d (subscribers st)].

Section Math.

Variable Math_pow : float -> float -> float.

(** [freqCorrection (freq)]: [freq * Math.pow(2, this.octave)]; a
    product with [undefined] is [NaN]. *)
Definition freqCorrection (f : option float) : M float :=
  st ← get;
  mret (match f with
        | Some q => (q * Math_pow 2 (octave st))%float
        | None => nan
        end).

(** Reading [note.freq]: a [TypeError] when [note] is [undefined]. *)
Definition note_freq (n : option Key.entry) : M (option float) :=
  match n with
  | Some e => mret (Key.freq e)
  | None => throw "TypeError"
  end.

(** The [switch (command)] of the handler, with its value [data]. *)
Definition command_switch (c : string) : M IActionData :=
  if decide (c = "octave-up") then
    st ← get;
    set_octave (limitTo (octave st + 1) (-8) 8);;
    st ← get;
    mret (ActionData None None None (Some (SNumber (octave st))) (Some c))
  else if decide (c = "octave-down") then
    st ← get;
    set_octave (limitTo (octave st - 1) (-8) 8);;
    st ← get;
    mret (ActionData None None None (Some (SNumber (octave st))) (Some c))
  else if decide (c = "velocity-up") then
    st ← get;
    set_velocity (limitTo (velocity st + 5) 0 127);;
    st ← get;
    mret (ActionData None None None (Some (SNumber (velocity st))) (Some c))
  else if decide (c = "velocity-down") then
    st ← get;
    set_velocity (limitTo (velocity st - 5) 0 127);;
    st ← get;
    mret (ActionData None None None (Some (SNumber (velocity st))) (Some c))
  else if decide (c = "hold-mode") then
    st ← get;
    set_holdMode (negb (holdMode st));;
    st ← get;
    mret (ActionData None None None (Some (SBool (holdMode st))) (Some c))
  else mret (ActionData None None None None None).

Definition command_data (c : Found string) : M IActionData :=
  match c with
  | Own word => command_switch word
  | Proto _ => mret (ActionData None None None None None)
  end.

(** The [keydown] block. *)
Definition on_keydown (k : string) (n : option Key.entry)
    (c : option (Found string)) : M unit :=
  st ← get;
  let doTrigger := negb (bool_decide (is_Some (heldKeys st !! k))) || holdMode st in
  match n with
  | Some e =>
      when doTrigger (
        st ← get;
        let v := activeVoices st in
        set_activeVoices (v + 1);;
        st ← get;
        set_heldKeys (write k v (heldKeys st));;
        f ← freqCorrection (Key.freq e);
        _ ← emit (NoteData "date"
               (ActionData (Some e) (Some f) (Some (Number v))
                  (Some (SString "on")) None));
        mret tt)
  | None => mret tt
  end;;
  match c with
  | Some cmd =>
      d ← command_data cmd;
      _ ← emit (NoteData "settings" d);
      mret tt
  | None => mret tt
  end.

(** The [keyup] block. *)
Definition on_keyup (k : string) (n : option Key.entry) : M unit :=
  st ← get;
  let heldKey := read_held (heldKeys st) k in
  match heldKey with
  | Some v =>
      when (negb (holdMode st)) (
        set_heldKeys (delete k (heldKeys st));;
        nf ← note_freq n;
        f ← freqCorrection nf;
        _ ← emit (NoteData "gate"
               (ActionData n (Some f) (Some v) (Some (SString "off")) None));
        mret tt)
  | None => mret tt
  end;;
  st ← get;
  when (bool_decide (size (heldKeys st) = 0%nat)) (set_activeVoices 0).

(** [keyHandler (event)]. *)
Definition keyHandler (event : KeyboardEvent) : M unit :=
  let k := toLowerCase (key event) in
  let n := read_note k in
  let c := read keyToCommandsMap k in
  when (bool_decide (type event = "keydown")) (on_keydown k n c);;
  when (bool_decide (type event = "keyup")) (on_keyup k n).

Fixpoint run (evs : list KeyboardEvent) (st : VirtualKeyBoard)
    : VirtualKeyBoard * list Emission :=
  match evs with
  | [] => (st, [])
  | e :: evs' =>
      let r := keyHandler e st in
      let rest := run evs' (this r) in
      (rest.1, emitted r ++ rest.2)
  end.

End Math.

End Double.

(** ** Vocabulary of the properties of numbers *)

(** The place of a number other than [NaN] in the order of the numbers:
    the comparisons [<] and [<=] of two numbers are the lexicographic
    comparisons of their places.  The two zeros have the same place. *)
Definition rank (x : spec_float) : Z * Z * Z :=
  match x with
  | S754_nan => (0, 0, 0)
  | S754_zero _ => (0, 0, 0)
  | S754_infinity true => (-2, 0, 0)
  | S754_infinity false => (2, 0, 0)
  | S754_finite true m e => (-1, - e, - Zpos m)
  | S754_finite false m e => (1, e, Zpos m)
  end.

Definition rank_lt (a b : Z * Z * Z) : Prop :=
  let '(a1, a2, a3) := a in
  let '(b1, b2, b3) := b in
  a1 < b1 \/ (a1 = b1 /\ (a2 < b2 \/ (a2 = b2 /\ a3 < b3))).

Definition rank_eq (a b : Z * Z * Z) : Prop :=
  let '(a1, a2, a3) := a in
  let '(b1, b2, b3) := b in
  a1 = b1 /\ a2 = b2 /\ a3 = b3.

Definition place (x : float) : Z * Z * Z := rank (Prim2SF x).


(** The command word of the key of a press, if the key is a command
    key. *)
Definition pressed_command (e : KeyboardEvent) : option string :=
  if bool_decide (type e = "keydown")
  then keyToCommandsMap !! toLowerCase (key e) else None.

(** What the [switch] assigns to [octave] and to [velocity]. *)
Definition octave_after (c : option string) (o : float) : float :=
  match c with
  | Some w =>
      if decide (w = "octave-up") then Double.limitTo (o + 1) (-8) 8
      else if decide (w = "octave-down") then Double.limitTo (o - 1) (-8) 8
      else o
  | None => o
  end.

Definition velocity_after (c : option string) (v : float) : float :=
  match c with
  | Some w =>
      if decide (w = "velocity-up") then Double.limitTo (v + 5) 0 127
      else if decide (w = "velocity-down") then Double.limitTo (v - 5) 0 127
      else v
  | None => v
  end.

(** The number that an integer is: the binary64 number nearest to it. *)
Definition number (z : Z) : float :=
  SF2Prim (binary_normalize prec emax z 0 false).

(** The keyboard after the command of a press, if the key is a command
    key. *)
Definition settled (c : option string) (st : VirtualKeyBoard) : VirtualKeyBoard :=
  match c with
  | Some w => commanded w st
  | None => st
  end.

Ltac double_unfold :=
  unfold Double.keyHandler, Double.on_keydown, Double.on_keyup;
  cbv zeta;
  unfold mbind, Double.M_bind, mret, Double.M_ret.

Ltac double_run :=
  unfold Double.bind, Double.ret, Double.get, Double.throw, Double.emit,
    Double.when, Double.freqCorrection, Double.note_freq,
    Double.set_octave, Double.set_velocity, Double.set_holdMode,
    Double.set_heldKeys, Double.set_activeVoices,
    mbind, Double.M_bind, mret, Double.M_ret, Double.bind, Double.ret;
  simpl.

(** Comparisons of places are linear arithmetic. *)
Ltac by_places :=
  unfold rank_lt, rank_eq in *;
  repeat match goal with
         | H : context [place ?x] |- _ => destruct (place x) as [[? ?] ?]
         | |- context [place ?x] => destruct (place x) as [[? ?] ?]
         end;
  lia.

(** * Properties *)

(** ** The tables *)

Lemma note_entries_nodup : NoDup note_entries.*1.
Proof. apply (bool_decide_unpack _). vm_compute. exact I. Qed.

Lemma command_entries_nodup : NoDup command_entries.*1.
Proof. apply (bool_decide_unpack _). vm_compute. exact I. Qed.

Lemma note_lookup_entry k n :
  keyToNoteMap !! k = Some n -> (k, n) ∈ note_entries.
Proof. apply elem_of_list_to_map_2. Qed.

Lemma command_lookup_entry k c :
  keyToCommandsMap !! k = Some c -> (k, c) ∈ command_entries.
Proof. apply elem_of_list_to_map_2. Qed.

(** The command words are the five that the [switch] knows. *)
Lemma command_cases k c :
  keyToCommandsMap !! k = Some c ->
  c = "octave-down" \/ c = "octave-up" \/ c = "velocity-down" \/
  c = "velocity-up" \/ c = "hold-mode".
Proof.
  intros H%command_lookup_entry. unfold command_entries in H.
  repeat (apply elem_of_cons in H as [H|H]; [inversion H; tauto|]).
  by apply elem_of_nil in H.
Qed.

Lemma command_key_no_note k c :
  keyToCommandsMap !! k = Some c -> keyToNoteMap !! k = None.
Proof.
  intros H%command_lookup_entry. unfold command_entries in H.
  repeat (apply elem_of_cons in H as [H|H]; [inversion H; subst; reflexivity|]).
  by apply elem_of_nil in H.
Qed.

(** No key is both a note key and a command key. *)
Lemma note_key_no_command k n :
  keyToNoteMap !! k = Some n -> keyToCommandsMap !! k = None.
Proof.
  intros H%note_lookup_entry. unfold note_entries in H.
  repeat (apply elem_of_cons in H as [H|H]; [inversion H; subst; reflexivity|]).
  by apply elem_of_nil in H.
Qed.

(** ** Reads that reach [Object.prototype] *)

Lemma read_own {V} (obj : gmap string V) k v :
  obj !! k = Some v -> read obj k = Some (Own v).
Proof. unfold read. by intros ->. Qed.

Lemma read_inherited {V} (obj : gmap string V) k :
  obj !! k = None -> k ∈ object_prototype_names -> read obj k = Some (Proto k).
Proof. unfold read. intros -> Hin. by rewrite bool_decide_eq_true_2. Qed.

Lemma read_undefined {V} (obj : gmap string V) k :
  obj !! k = None -> k ∉ object_prototype_names -> read obj k = None.
Proof. unfold read. intros -> Hin. by rewrite bool_decide_eq_false_2. Qed.

(** No key of the two tables is a property name of [Object.prototype]. *)
Lemma note_key_not_inherited k n :
  keyToNoteMap !! k = Some n -> k ∉ object_prototype_names.
Proof.
  intros H%note_lookup_entry. unfold note_entries in H.
  repeat (apply elem_of_cons in H as [H|H];
          [inversion H; subst; apply (bool_decide_unpack _); vm_compute; exact I|]).
  by apply elem_of_nil in H.
Qed.

Lemma command_key_not_inherited k c :
  keyToCommandsMap !! k = Some c -> k ∉ object_prototype_names.
Proof.
  intros H%command_lookup_entry. unfold command_entries in H.
  repeat (apply elem_of_cons in H as [H|H];
          [inversion H; subst; apply (bool_decide_unpack _); vm_compute; exact I|]).
  by apply elem_of_nil in H.
Qed.

Lemma inherited_no_note k :
  k ∈ object_prototype_names -> keyToNoteMap !! k = None.
Proof.
  intros Hin. destruct (keyToNoteMap !! k) as [n|] eqn:Hn; [|done].
  by apply note_key_not_inherited in Hn.
Qed.

Lemma inherited_no_command k :
  k ∈ object_prototype_names -> keyToCommandsMap !! k = None.
Proof.
  intros Hin. destruct (keyToCommandsMap !! k) as [c|] eqn:Hc; [|done].
  by apply command_key_not_inherited in Hc.
Qed.

Lemma read_note_own k n : keyToNoteMap !! k = Some n -> read_note k = Some n.
Proof. intros H. unfold read_note. by rewrite (read_own _ _ _ H). Qed.

Lemma read_note_inherited k :
  k ∈ object_prototype_names -> read_note k = Some (Key.Member k).
Proof.
  intros Hin. unfold read_note.
  by rewrite (read_inherited _ _ (inherited_no_note _ Hin) Hin).
Qed.

Lemma read_note_undefined k :
  keyToNoteMap !! k = None -> k ∉ object_prototype_names -> read_note k = None.
Proof. intros Hn Hin. unfold read_note. by rewrite (read_undefined _ _ Hn Hin). Qed.

Lemma read_held_own held k v :
  held !! k = Some v -> read_held held k = Some (Number v).
Proof. intros H. unfold read_held. by rewrite (read_own _ _ _ H). Qed.

Lemma read_held_undefined held k :
  held !! k = None -> k ∉ object_prototype_names -> read_held held k = None.
Proof. intros H Hin. unfold read_held. by rewrite (read_undefined _ _ H Hin). Qed.

Lemma write_insert {V} k (v : V) held :
  k <> "__proto__" -> write k v held = <[k := v]> held.
Proof. intros Hne. unfold write. by rewrite decide_False. Qed.

Lemma write_proto {V} (v : V) held :
  held !! "__proto__" = None -> write "__proto__" v held = held.
Proof. intros Hn. unfold write. rewrite decide_True by done. by rewrite Hn. Qed.

Lemma note_key_not_proto k n : keyToNoteMap !! k = Some n -> k <> "__proto__".
Proof.
  intros Hn%note_key_not_inherited ->. apply Hn.
  apply (bool_decide_unpack _). vm_compute. exact I.
Qed.

(** ** The handler, case by case *)

Lemma keyHandler_other_type e st :
  type e <> "keydown" -> type e <> "keyup" ->
  keyHandler e st = Res (Normal tt) st [].
Proof.
  intros Hd Hu. unfold_handler.
  rewrite !bool_decide_eq_false_2 by assumption. reflexivity.
Qed.

Lemma keyHandler_press_trigger e st n :
  type e = "keydown" ->
  keyToNoteMap !! toLowerCase (key e) = Some n ->
  heldKeys st !! toLowerCase (key e) = None \/ holdMode st = true ->
  keyHandler e st =
  Res (Normal tt) (triggered (toLowerCase (key e)) st)
      [Emitted (note_event "date" n (activeVoices st) "on" st) (subscribers st)].
Proof.
  intros Hty Hn Htr. unfold_handler.
  rewrite Hty, (read_note_own _ _ Hn),
    (read_undefined _ _ (note_key_no_command _ _ Hn) (note_key_not_inherited _ _ Hn)).
  run_handler.
  assert (negb (bool_decide (is_Some (heldKeys st !! toLowerCase (key e))))
          || holdMode st = true) as ->.
  { destruct Htr as [-> | ->]; [reflexivity | apply orb_true_r]. }
  simpl. unfold triggered. rewrite (write_insert _ _ _ (note_key_not_proto _ _ Hn)).
  reflexivity.
Qed.

Lemma keyHandler_press_held e st n v :
  type e = "keydown" ->
  keyToNoteMap !! toLowerCase (key e) = Some n ->
  heldKeys st !! toLowerCase (key e) = Some v -> holdMode st = false ->
  keyHandler e st = Res (Normal tt) st [].
Proof.
  intros Hty Hn Hv Hh. unfold_handler.
  rewrite Hty, (read_note_own _ _ Hn),
    (read_undefined _ _ (note_key_no_command _ _ Hn) (note_key_not_inherited _ _ Hn)).
  run_handler.
  rewrite Hv, Hh. reflexivity.
Qed.

Lemma keyHandler_press_unmapped e st :
  type e = "keydown" ->
  keyToNoteMap !! toLowerCase (key e) = None ->
  keyToCommandsMap !! toLowerCase (key e) = None ->
  toLowerCase (key e) ∉ object_prototype_names ->
  keyHandler e st = Res (Normal tt) st [].
Proof.
  intros Hty Hn Hc Hin. unfold_handler.
  rewrite Hty, (read_note_undefined _ Hn Hin), (read_undefined _ _ Hc Hin).
  run_handler. reflexivity.
Qed.

Lemma keyHandler_press_command e st c :
  type e = "keydown" ->
  keyToCommandsMap !! toLowerCase (key e) = Some c ->
  keyToNoteMap !! toLowerCase (key e) = None ->
  exists d,
    keyHandler e st =
    Res (Normal tt) (commanded c st)
        [Emitted (NoteData "settings" d) (subscribers st)] /\
    command d = Some c /\ note d = None /\ voice d = None /\ freq d = None /\
    (forall s, state d <> Some (SString s)).
Proof.
  intros Hty Hc Hn. unfold_handler.
  rewrite Hty, (read_own _ _ _ Hc),
    (read_note_undefined _ Hn (command_key_not_inherited _ _ Hc)).
  destruct (command_cases _ _ Hc) as [->|[->|[->|[->| ->]]]];
    unfold command_data, command_switch; run_handler;
    eexists; (split; [reflexivity | simpl; repeat split; congruence]).
Qed.

(** A key that names a member of [Object.prototype] is taken for a note
    key and for a command key. *)
Lemma keyHandler_press_inherited_trigger e st :
  type e = "keydown" ->
  toLowerCase (key e) ∈ object_prototype_names ->
  heldKeys st !! toLowerCase (key e) = None \/ holdMode st = true ->
  keyHandler e st =
  Res (Normal tt) (inherited_triggered (toLowerCase (key e)) st)
      [Emitted (note_event "date" (Key.Member (toLowerCase (key e)))
                  (activeVoices st) "on" st) (subscribers st);
       Emitted empty_settings (subscribers st)].
Proof.
  intros Hty Hin Htr. unfold_handler.
  rewrite Hty, (read_note_inherited _ Hin),
    (read_inherited _ _ (inherited_no_command _ Hin) Hin).
  unfold command_data. run_handler.
  assert (negb (bool_decide (is_Some (heldKeys st !! toLowerCase (key e))))
          || holdMode st = true) as ->.
  { destruct Htr as [-> | ->]; [reflexivity | apply orb_true_r]. }
  reflexivity.
Qed.

Lemma keyHandler_press_inherited_held e st v :
  type e = "keydown" ->
  toLowerCase (key e) ∈ object_prototype_names ->
  heldKeys st !! toLowerCase (key e) = Some v -> holdMode st = false ->
  keyHandler e st =
  Res (Normal tt) st [Emitted empty_settings (subscribers st)].
Proof.
  intros Hty Hin Hv Hh. unfold_handler.
  rewrite Hty, (read_note_inherited _ Hin),
    (read_inherited _ _ (inherited_no_command _ Hin) Hin).
  unfold command_data. run_handler.
  rewrite Hv, Hh. reflexivity.
Qed.

Lemma keyHandler_release_read e st v n :
  type e = "keyup" ->
  read_held (heldKeys st) (toLowerCase (key e)) = Some v -> holdMode st = false ->
  read_note (toLowerCase (key e)) = Some n ->
  keyHandler e st =
  Res (Normal tt) (reset_if_idle (released (toLowerCase (key e)) st))
      [Emitted (note_event "gate" n v "off" st) (subscribers st)].
Proof.
  intros Hty Hv Hh Hn. unfold_handler. rewrite Hty, Hn. run_handler.
  rewrite Hv, Hh. simpl. unfold reset_if_idle, released. simpl.
  case_bool_decide; reflexivity.
Qed.

Lemma keyHandler_release_held e st (v : Z) n :
  type e = "keyup" ->
  heldKeys st !! toLowerCase (key e) = Some v -> holdMode st = false ->
  keyToNoteMap !! toLowerCase (key e) = Some n ->
  keyHandler e st =
  Res (Normal tt) (reset_if_idle (released (toLowerCase (key e)) st))
      [Emitted (note_event "gate" n v "off" st) (subscribers st)].
Proof.
  intros Hty Hv Hh Hn.
  by apply keyHandler_release_read; [|apply read_held_own| |apply read_note_own].
Qed.

Lemma keyHandler_release_no_note e st (v : Z) :
  type e = "keyup" ->
  heldKeys st !! toLowerCase (key e) = Some v -> holdMode st = false ->
  read_note (toLowerCase (key e)) = None ->
  keyHandler e st =
  Res (Throw "TypeError") (released (toLowerCase (key e)) st) [].
Proof.
  intros Hty Hv Hh Hn. unfold_handler. rewrite Hty, Hn. run_handler.
  rewrite (read_held_own _ _ _ Hv), Hh. reflexivity.
Qed.

Lemma keyHandler_release_ignored e st :
  type e = "keyup" ->
  read_held (heldKeys st) (toLowerCase (key e)) = None \/ holdMode st = true ->
  keyHandler e st = Res (Normal tt) (reset_if_idle st) [].
Proof.
  intros Hty Hig. unfold_handler. rewrite Hty.
  generalize (read_note (toLowerCase (key e))) as n. intros n.
  run_handler. unfold reset_if_idle.
  destruct Hig as [-> | Hh].
  - simpl. case_bool_decide; reflexivity.
  - destruct st as [o v h hk su av]. simpl in Hh |- *. subst h.
    destruct (read_held hk (toLowerCase (key e))); simpl; case_bool_decide;
      reflexivity.
Qed.

(** Every call of the handler is one of the cases above. *)
Lemma keyHandler_cases (P : Result unit -> Prop) e st :
  let k := toLowerCase (key e) in
  (type e <> "keydown" -> type e <> "keyup" -> P (Res (Normal tt) st [])) ->
  (forall n, type e = "keydown" -> keyToNoteMap !! k = Some n ->
     heldKeys st !! k = None \/ holdMode st = true ->
     P (Res (Normal tt) (triggered k st)
          [Emitted (note_event "date" n (activeVoices st) "on" st) (subscribers st)])) ->
  (forall n v, type e = "keydown" -> keyToNoteMap !! k = Some n ->
     heldKeys st !! k = Some v -> holdMode st = false ->
     P (Res (Normal tt) st [])) ->
  (type e = "keydown" -> keyToNoteMap !! k = None ->
     keyToCommandsMap !! k = None -> k ∉ object_prototype_names ->
     P (Res (Normal tt) st [])) ->
  (forall c d, type e = "keydown" -> keyToCommandsMap !! k = Some c ->
     keyToNoteMap !! k = None ->
     command d = Some c -> note d = None -> voice d = None -> freq d = None ->
     (forall s, state d <> Some (SString s)) ->
     P (Res (Normal tt) (commanded c st)
          [Emitted (NoteData "settings" d) (subscribers st)])) ->
  (forall v n, type e = "keyup" -> read_held (heldKeys st) k = Some v ->
     holdMode st = false -> read_note k = Some n ->
     P (Res (Normal tt) (reset_if_idle (released k st))
          [Emitted (note_event "gate" n v "off" st) (subscribers st)])) ->
  (forall v : Z, type e = "keyup" -> heldKeys st !! k = Some v ->
     holdMode st = false -> read_note k = None ->
     P (Res (Throw "TypeError") (released k st) [])) ->
  (type e = "keyup" ->
     read_held (heldKeys st) k = None \/ holdMode st = true ->
     P (Res (Normal tt) (reset_if_idle st) [])) ->
  (type e = "keydown" -> k ∈ object_prototype_names ->
     heldKeys st !! k = None \/ holdMode st = true ->
     P (Res (Normal tt) (inherited_triggered k st)
          [Emitted (note_event "date" (Key.Member k) (activeVoices st) "on" st)
             (subscribers st);
           Emitted empty_settings (subscribers st)])) ->
  (forall v, type e = "keydown" -> k ∈ object_prototype_names ->
     heldKeys st !! k = Some v -> holdMode st = false ->
     P (Res (Normal tt) st [Emitted empty_settings (subscribers st)])) ->
  P (keyHandler e st).
Proof.
  intros k H1 H2 H3 H4 H5 H6 H7 H8 H9 H10.
  destruct (decide (type e = "keydown")) as [Hd|Hd];
    [|destruct (decide (type e = "keyup")) as [Hu|Hu]].
  - (* keydown *)
    assert (exists ov, heldKeys st !! k = ov) as [ov Hv] by eauto.
    assert (exists h, holdMode st = h) as [h Hh] by eauto.
    assert ((heldKeys st !! k = None \/ holdMode st = true) \/
            (exists v, heldKeys st !! k = Some v /\ holdMode st = false))
      as [Htr|(v & Hv' & Hh')].
    { destruct ov as [v|]; [|by left; left]. destruct h; [by left; right|].
      right. eauto. }
    + destruct (decide (k ∈ object_prototype_names)) as [Hin|Hin].
      { rewrite keyHandler_press_inherited_trigger by done. by apply H9. }
      assert (exists on, keyToNoteMap !! k = on) as [[n|] Hn] by eauto.
      { rewrite (keyHandler_press_trigger e st n) by done. by apply H2. }
      assert (exists oc, keyToCommandsMap !! k = oc) as [[c|] Hc] by eauto.
      * destruct (keyHandler_press_command e st c Hd Hc Hn)
          as (d & -> & Hcd & Hnd & Hvd & Hfd & Hsd). by apply H5.
      * rewrite keyHandler_press_unmapped by done. by apply H4.
    + destruct (decide (k ∈ object_prototype_names)) as [Hin|Hin].
      { rewrite (keyHandler_press_inherited_held e st v) by done. by eapply H10. }
      assert (exists on, keyToNoteMap !! k = on) as [[n|] Hn] by eauto.
      { rewrite (keyHandler_press_held e st n v) by done. by eapply H3. }
      assert (exists oc, keyToCommandsMap !! k = oc) as [[c|] Hc] by eauto.
      * destruct (keyHandler_press_command e st c Hd Hc Hn)
          as (d & -> & Hcd & Hnd & Hvd & Hfd & Hsd). by apply H5.
      * rewrite keyHandler_press_unmapped by done. by apply H4.
  - (* keyup *)
    assert (exists ov, read_held (heldKeys st) k = ov) as [[v|] Hv] by eauto;
      [|rewrite keyHandler_release_ignored by auto; by apply H8; auto].
    assert (exists h, holdMode st = h) as [[|] Hh] by eauto;
      [rewrite keyHandler_release_ignored by auto; by apply H8; auto|].
    assert (exists on, read_note k = on) as [[n|] Hn] by eauto.
    + rewrite (keyHandler_release_read e st v n) by done. by apply H6.
    + assert (exists w, heldKeys st !! k = Some w) as [w Hw].
      { unfold read_held, read in Hv. fold k in Hv.
        destruct (heldKeys st !! k) as [w|]; [eauto|].
        unfold read_note, read in Hn. fold k in Hn.
        destruct (keyToNoteMap !! k); [done|].
        case_bool_decide; done. }
      rewrite (keyHandler_release_no_note e st w) by done. by eapply H7.
  - rewrite keyHandler_other_type by done. by apply H1.
Qed.

(** ** Invariants of the keyboard object *)

Lemma commanded_heldKeys c st : heldKeys (commanded c st) = heldKeys st.
Proof. unfold commanded. repeat case_decide; reflexivity. Qed.

Lemma commanded_activeVoices c st : activeVoices (commanded c st) = activeVoices st.
Proof. unfold commanded. repeat case_decide; reflexivity. Qed.

Lemma commanded_subscribers c st : subscribers (commanded c st) = subscribers st.
Proof. unfold commanded. repeat case_decide; reflexivity. Qed.

Lemma reset_if_idle_heldKeys st : heldKeys (reset_if_idle st) = heldKeys st.
Proof. unfold reset_if_idle. case_bool_decide; reflexivity. Qed.

Lemma reset_if_idle_subscribers st : subscribers (reset_if_idle st) = subscribers st.
Proof. unfold reset_if_idle. case_bool_decide; reflexivity. Qed.

Lemma reset_if_idle_empty st :
  heldKeys st = ∅ -> activeVoices (reset_if_idle st) = 0.
Proof.
  intros He. unfold reset_if_idle.
  rewrite bool_decide_eq_true_2; [reflexivity|]. rewrite He. apply map_size_empty.
Qed.

Lemma reset_if_idle_busy st :
  heldKeys st <> ∅ -> reset_if_idle st = st.
Proof.
  intros Hne. unfold reset_if_idle.
  rewrite bool_decide_eq_false_2; [reflexivity|].
  intros Hs. apply Hne. by apply map_size_empty_iff.
Qed.

Lemma reset_if_idle_held st k v :
  heldKeys st !! k = Some v -> reset_if_idle st = st.
Proof.
  intros Hv. apply reset_if_idle_busy. intros He.
  by rewrite He, lookup_empty in Hv.
Qed.

Lemma reset_if_idle_inv st :
  (forall k v, heldKeys st !! k = Some v ->
     (is_Some (keyToNoteMap !! k) \/ k = "constructor") /\
     0 <= v < activeVoices st) ->
  (forall k1 k2 v,
     heldKeys st !! k1 = Some v -> heldKeys st !! k2 = Some v -> k1 = k2) ->
  0 <= activeVoices st -> NoDup (subscribers st) ->
  board_inv (reset_if_idle st).
Proof.
  intros Hk Hj Hc Hs. destruct (decide (heldKeys st = ∅)) as [He|Hne].
  - constructor; rewrite ?reset_if_idle_heldKeys, ?reset_if_idle_subscribers,
      ?reset_if_idle_empty by done; try done.
    + intros k v Hv. by apply (Hk k v).
    + intros k v Hv. rewrite He in Hv. by rewrite lookup_empty in Hv.
  - rewrite reset_if_idle_busy by done. constructor; try done.
    + intros k v Hv. by apply (Hk k v).
    + intros k v Hv. by apply (Hk k v).
Qed.

Lemma board_inv_reset st : board_inv st -> board_inv (reset_if_idle st).
Proof.
  intros [Hn Hb Hj Hc Hs]. apply reset_if_idle_inv; try done.
  intros k v Hv. split; [by apply (Hn k v) | by apply (Hb k v)].
Qed.

Lemma constructor_inv o v : board_inv (constructor o v).
Proof.
  constructor; simpl; try done.
  apply NoDup_nil_2.
Qed.

(** The two names of [Object.prototype] in lower case. *)
Lemma lower_ascii_idem c : lower_ascii (lower_ascii c) = lower_ascii c.
Proof. destruct c as [[] [] [] [] [] [] [] []]; reflexivity. Qed.

Lemma lower_ascii_high c :
  lower_ascii c = "226"%char \/ lower_ascii c = "132"%char \/
  lower_ascii c = "170"%char -> lower_ascii c = c.
Proof. destruct c as [[] [] [] [] [] [] [] []]; vm_compute; intuition congruence. Qed.

(** The first characters of a lower-cased string. *)
Lemma toLowerCase_cons c s :
  (exists c2 c3 rest, s = String c2 (String c3 rest) /\ is_kelvin c c2 c3 = true /\
     toLowerCase (String c s) = String "k" (toLowerCase rest)) \/
  ((forall c2 c3 rest, s = String c2 (String c3 rest) -> is_kelvin c c2 c3 = false) /\
   toLowerCase (String c s) = String (lower_ascii c) (toLowerCase s)).
Proof.
  destruct s as [|c2 [|c3 rest]].
  - right. split; [intros; discriminate|reflexivity].
  - right. split; [intros; discriminate|reflexivity].
  - destruct (is_kelvin c c2 c3) eqn:Hk.
    + left. exists c2, c3, rest. split_and!; [done..|]. simpl. by rewrite Hk.
    + right. split; [intros ? ? ? [= <- <- <-]; done|]. cbn [toLowerCase]. by rewrite Hk.
Qed.

Lemma toLowerCase_idem_aux n : forall s, (String.length s <= n)%nat ->
  toLowerCase (toLowerCase s) = toLowerCase s.
Proof.
  induction n as [|n IH]; intros s Hlen.
  { destruct s; [done|simpl in Hlen; lia]. }
  destruct s as [|c s]; [done|].
  destruct (toLowerCase_cons c s) as [(c2 & c3 & rest & -> & Hk & ->)|[Hnk ->]].
  - destruct (toLowerCase_cons "k" (toLowerCase rest))
      as [(d2 & d3 & rest' & _ & Hk' & _)|[_ ->]].
    + discriminate Hk'.
    + rewrite IH; [done|]. simpl in Hlen. lia.
  - destruct (toLowerCase_cons (lower_ascii c) (toLowerCase s))
      as [(d2 & d3 & rest' & Heq & Hk' & _)|[_ ->]].
    + exfalso. unfold is_kelvin in Hk'.
      apply andb_true_iff in Hk' as [[H1 H2]%andb_true_iff H3].
      apply bool_decide_eq_true in H1, H2, H3. subst d2 d3.
      rewrite lower_ascii_high in H1 by auto. subst c.
      destruct s as [|c2 s2]; [discriminate Heq|].
      destruct (toLowerCase_cons c2 s2) as [(? & ? & ? & -> & _ & Hs)|[Hnk2 Hs]];
        rewrite Hs in Heq; [discriminate Heq|].
      injection Heq as Hc2 Heq. rewrite lower_ascii_high in Hc2 by auto. subst c2.
      destruct s2 as [|c3 s3]; [discriminate Heq|].
      destruct (toLowerCase_cons c3 s3) as [(? & ? & ? & -> & _ & Hs3)|[_ Hs3]];
        rewrite Hs3 in Heq; [discriminate Heq|].
      injection Heq as Hc3 Heq. rewrite lower_ascii_high in Hc3 by auto. subst c3.
      by specialize (Hnk _ _ _ eq_refl).
    + rewrite lower_ascii_idem, IH; [done|]. simpl in Hlen. lia.
Qed.

Lemma toLowerCase_idem s : toLowerCase (toLowerCase s) = toLowerCase s.
Proof. by apply (toLowerCase_idem_aux (String.length s)). Qed.

Lemma lower_case_inherited s :
  toLowerCase s ∈ object_prototype_names ->
  toLowerCase s = "constructor" \/ toLowerCase s = "__proto__".
Proof.
  intros Hin. pose proof (toLowerCase_idem s) as Hid. revert Hin Hid.
  generalize (toLowerCase s) as k. intros k Hin Hid.
  unfold object_prototype_names in Hin.
  repeat (apply elem_of_cons in Hin as [->|Hin];
          [first [by left | by right | discriminate Hid]|]).
  by apply elem_of_nil in Hin.
Qed.

Lemma held_key_note_defined k :
  is_Some (keyToNoteMap !! k) \/ k = "constructor" -> is_Some (read_note k).
Proof.
  intros [[n Hn]| ->].
  - rewrite (read_note_own _ _ Hn). eauto.
  - rewrite read_note_inherited; [eauto|].
    apply (bool_decide_unpack _). vm_compute. exact I.
Qed.

Lemma insert_inv k st :
  board_inv st -> is_Some (keyToNoteMap !! k) \/ k = "constructor" ->
  board_inv (Board (octave st) (velocity st) (holdMode st)
               (<[k := activeVoices st]> (heldKeys st)) (subscribers st)
               (activeVoices st + 1)).
Proof.
  intros [Hn Hb Hj Hc Hs] Hk. constructor; simpl; try done; try lia.
  - intros k' v. destruct (decide (k = k')) as [<-|Hne].
    + done.
    + rewrite lookup_insert_ne by done. apply Hn.
  - intros k' v. destruct (decide (k = k')) as [<-|Hne].
    + rewrite lookup_insert_eq. intros [= <-]. lia.
    + rewrite lookup_insert_ne by done. intros Hv%Hb. lia.
  - intros k1 k2 v.
    destruct (decide (k = k1)) as [<-|Hne1];
      destruct (decide (k = k2)) as [<-|Hne2];
      rewrite ?lookup_insert_eq, ?lookup_insert_ne by done; try done.
    + intros [= <-] Hv%Hb. lia.
    + intros Hv%Hb [= <-]. lia.
    + apply Hj.
Qed.

Lemma keyHandler_inv e st : board_inv st -> board_inv (this (keyHandler e st)).
Proof.
  intros Hinv. pose proof Hinv as [Hn Hb Hj Hc Hs].
  apply (keyHandler_cases (fun r => board_inv (this r))); simpl; try done.
  - (* triggering press *)
    intros n _ Hnote _. apply insert_inv; eauto.
  - (* command *)
    intros c d _ _ _ _ _ _ _ _.
    constructor; rewrite ?commanded_heldKeys, ?commanded_activeVoices,
      ?commanded_subscribers; done.
  - (* release of a held key *)
    intros v n _ _ _ _. apply reset_if_idle_inv; simpl; try done.
    + intros k w Hw. apply lookup_delete_Some in Hw as [_ Hw]. eauto.
    + intros k1 k2 w H1 H2. apply lookup_delete_Some in H1 as [_ H1].
      apply lookup_delete_Some in H2 as [_ H2]. eauto.
  - (* a held key without a note: excluded *)
    intros v _ Hv _ Hnone. apply Hn, held_key_note_defined in Hv.
    rewrite Hnone in Hv. by destruct Hv.
  - (* ignored release *)
    intros _ _. by apply board_inv_reset.
  - (* triggering press of an inherited name *)
    intros _ Hin _. unfold inherited_triggered.
    destruct (lower_case_inherited _ Hin) as [Hk|Hk]; rewrite Hk.
    + rewrite write_insert by discriminate. apply insert_inv; auto.
    + rewrite write_proto.
      * constructor; simpl; try done; try lia.
        intros k v Hv%Hb. lia.
      * destruct (heldKeys st !! "__proto__") as [v|] eqn:Hv; [|done].
        apply Hn in Hv as [[n Hv]|Hv]; [|discriminate].
        vm_compute in Hv. discriminate.
Qed.

(** ** The subscriber list *)

Lemma indexOf_lower_bound l c : -1 <= indexOf l c.
Proof.
  induction l as [|x l IH]; simpl; [lia|].
  case_decide; [lia|]. destruct (indexOf l c <? 0) eqn:E; lia.
Qed.

Lemma indexOf_absent l c : indexOf l c < 0 <-> c ∉ l.
Proof.
  induction l as [|x l IH]; simpl.
  - split; [intros _; apply not_elem_of_nil | lia].
  - rewrite not_elem_of_cons. case_decide as Hx.
    + subst. split; [lia | tauto].
    + pose proof (indexOf_lower_bound l c).
      destruct (indexOf l c <? 0) eqn:E.
      * apply Z.ltb_lt in E. split; [intros _|lia]. split; [congruence|by apply IH].
      * apply Z.ltb_ge in E. split; [lia|]. intros [_ Hn]. apply IH in Hn. lia.
Qed.

Lemma splice1_sublist p l : sublist (splice1 p l) l.
Proof.
  unfold splice1. set (n := Z.to_nat p).
  transitivity (take n l ++ drop n l); [|by rewrite take_drop].
  apply sublist_app; [done|].
  replace (S n) with (n + 1)%nat by lia.
  rewrite <- drop_drop. apply sublist_drop.
Qed.

Lemma subscribe_registered c st :
  c ∈ subscribers st -> subscribe c st = Res (Normal st) st [].
Proof.
  intros Hin. unfold_handler. run_handler.
  destruct (indexOf (subscribers st) c <? 0) eqn:E; [|reflexivity].
  apply Z.ltb_lt, indexOf_absent in E. contradiction.
Qed.

Lemma subscribe_fresh c st :
  c ∉ subscribers st ->
  subscribe c st =
  let st' := Board (octave st) (velocity st) (holdMode st) (heldKeys st)
                   (subscribers st ++ [c]) (activeVoices st) in
  Res (Normal st') st' [].
Proof.
  intros Hin. unfold_handler. run_handler.
  apply indexOf_absent, Z.ltb_lt in Hin. rewrite Hin. reflexivity.
Qed.

Lemma unsubscribe_absent c st :
  c ∉ subscribers st -> unsubscribe c st = Res (Normal st) st [].
Proof.
  intros Hin. unfold_handler. run_handler.
  apply indexOf_absent, Z.ltb_lt in Hin. rewrite Hin. reflexivity.
Qed.

Lemma unsubscribe_registered c st :
  c ∈ subscribers st ->
  unsubscribe c st =
  let st' := Board (octave st) (velocity st) (holdMode st) (heldKeys st)
                   (splice1 (indexOf (subscribers st) c) (subscribers st))
                   (activeVoices st) in
  Res (Normal st') st' [].
Proof.
  intros Hin. unfold_handler. run_handler.
  destruct (indexOf (subscribers st) c <? 0) eqn:E; [|reflexivity].
  apply Z.ltb_lt, indexOf_absent in E. contradiction.
Qed.

Lemma subscribe_inv c st : board_inv st -> board_inv (this (subscribe c st)).
Proof.
  intros [Hn Hb Hj Hc Hs]. destruct (decide (c ∈ subscribers st)) as [Hin|Hin].
  - rewrite subscribe_registered by done. by constructor.
  - rewrite subscribe_fresh by done. constructor; simpl; try done.
    apply NoDup_app. split_and!; [done| |apply NoDup_singleton].
    intros x Hx ->%list_elem_of_singleton. contradiction.
Qed.

Lemma unsubscribe_inv c st : board_inv st -> board_inv (this (unsubscribe c st)).
Proof.
  intros [Hn Hb Hj Hc Hs]. destruct (decide (c ∈ subscribers st)) as [Hin|Hin].
  - rewrite unsubscribe_registered by done. constructor; simpl; try done.
    eapply sublist_NoDup; [done|apply splice1_sublist].
  - rewrite unsubscribe_absent by done. by constructor.
Qed.

Lemma reachable_inv st : reachable st -> board_inv st.
Proof.
  induction 1;
    auto using constructor_inv, keyHandler_inv, subscribe_inv, unsubscribe_inv.
Qed.

(** ** Note events *)

(** C1, as stated, fails: the event emitted by the press of "a" on a new
    keyboard has [state: 'on'] and its action is "date", not "note-on";
    the one emitted by the release has [state: 'off'] and action "gate",
    not "note-off". *)
Lemma note_action_names_differ :
  let r1 := keyHandler (press "a") (constructor None None) in
  let r2 := keyHandler (release "a") (this r1) in
  (exists ev, events r1 = [ev] /\ is_note_on ev /\
              action ev = "date" /\ action ev <> "note-on") /\
  (exists ev, events r2 = [ev] /\ is_note_off ev /\
              action ev = "gate" /\ action ev <> "note-off").
Proof.
  split; eexists; (split; [vm_compute; reflexivity|]);
    (split; [reflexivity|]); (split; [reflexivity|]); discriminate.
Qed.

(** C1, amended: every emitted event that has a voice comes with a note
    descriptor and a frequency and no command; on a press its action is
    "date" and its state "on", on a release its action is "gate" and its
    state "off". *)
Theorem note_event_shape e st ev :
  ev ∈ events (keyHandler e st) -> is_Some (voice (data ev)) ->
  is_Some (note (data ev)) /\ is_Some (freq (data ev)) /\
  command (data ev) = None /\
  ((type e = "keydown" /\ action ev = "date" /\
    state (data ev) = Some (SString "on")) \/
   (type e = "keyup" /\ action ev = "gate" /\
    state (data ev) = Some (SString "off"))).
Proof.
  unfold events.
  apply (keyHandler_cases
    (fun r => ev ∈ payload <$> emitted r -> is_Some (voice (data ev)) -> _));
    simpl.
  all: try (intros; exfalso; eapply not_elem_of_nil; eassumption).
  - intros n Hty _ _ ->%list_elem_of_singleton _. simpl. eauto 10.
  - intros c d _ _ _ _ _ Hv _ _ ->%list_elem_of_singleton Hs. simpl in Hs.
    rewrite Hv in Hs. by destruct Hs.
  - intros v n Hty _ _ _ ->%list_elem_of_singleton _. simpl. eauto 10.
  - intros Hty _ _ [->|Hev]%elem_of_cons Hs.
    + simpl. eauto 10.
    + apply list_elem_of_singleton in Hev as ->. by destruct Hs.
  - intros v Hty _ _ _ ->%list_elem_of_singleton Hs. by destruct Hs.
Qed.

Lemma note_event_shape_witness :
  let ev := note_event "date" (Key.Entry "C" 16.35%Q) 0 "on"
              (constructor None None) in
  is_Some (note (data ev)) /\ is_Some (freq (data ev)) /\
  command (data ev) = None /\
  ((type (press "a") = "keydown" /\ action ev = "date" /\
    state (data ev) = Some (SString "on")) \/
   (type (press "a") = "keyup" /\ action ev = "gate" /\
    state (data ev) = Some (SString "off"))).
Proof.
  apply (note_event_shape (press "a") (constructor None None)).
  - vm_compute. left.
  - simpl. eauto.
Defined.

(** ** Presses and releases of note keys *)



(** C3: in a state the keyboard can reach, the release of a key that is
    in [heldKeys] while hold mode is off removes that key's entry, and
    only it, and emits one note-off event that carries the voice stored
    for the key. *)
Theorem release_emits_note_off e st v :
  reachable st ->
  type e = "keyup" ->
  heldKeys st !! toLowerCase (key e) = Some v ->
  holdMode st = false ->
  let r := keyHandler e st in
  completion r = Normal tt /\
  heldKeys (this r) = delete (toLowerCase (key e)) (heldKeys st) /\
  exists ev, events r = [ev] /\ is_note_off ev /\ voice (data ev) = Some (Number v).
Proof.
  intros Hreach Hty Hv Hh r.
  destruct (held_key_note_defined _
              (inv_held_notes _ (reachable_inv _ Hreach) _ _ Hv)) as [n Hn].
  unfold r.
  rewrite (keyHandler_release_read e st (Number v) n)
    by auto using read_held_own.
  simpl.
  rewrite reset_if_idle_heldKeys. simpl. split_and!; [done..|].
  eexists. split_and!; reflexivity.
Qed.

Lemma release_emits_note_off_witness :
  let st := this (keyHandler (press "a") (constructor None None)) in
  let r := keyHandler (release "a") st in
  completion r = Normal tt /\
  heldKeys (this r) = delete "a" (heldKeys st) /\
  exists ev, events r = [ev] /\ is_note_off ev /\ voice (data ev) = Some (Number 0).
Proof.
  apply (release_emits_note_off (release "a")
           (this (keyHandler (press "a") (constructor None None))) 0).
  - apply reach_key, reach_new.
  - reflexivity.
  - vm_compute. reflexivity.
  - reflexivity.
Defined.

(** ** The voice counter *)

(** C4 does not hold of the code.  A key named "__proto__" is taken for
    a note key, as [keyToNoteMap["__proto__"]] is [Object.prototype];
    its press on a new keyboard emits a note-on with voice 0 and moves
    the voice counter to 1, while the assignment
    [this.heldKeys["__proto__"] = voice] stores nothing: [heldKeys] is
    empty with the counter at 1, the counter went up with no key held,
    and the note triggered next gets voice 1. *)
Theorem proto_press_counts_without_holding :
  let st := constructor None None in
  let r := keyHandler (press "__proto__") st in
  let r' := keyHandler (press "a") (this r) in
  heldKeys st = ∅ /\ activeVoices st = 0 /\
  heldKeys (this r) = ∅ /\ activeVoices (this r) = 1 /\
  (exists ev, ev ∈ events r /\ is_note_on ev /\
              voice (data ev) = Some (Number 0)) /\
  (exists ev, events r' = [ev] /\ is_note_on ev /\
              voice (data ev) = Some (Number 1)).
Proof.
  vm_compute. split_and!; try reflexivity.
  - eexists. split; [left|]. split; reflexivity.
  - eexists. split; [reflexivity|]. split; reflexivity.
Qed.

(** ** Frequencies *)

(** C6 does not hold of the code.  The key "constructor" has no entry in
    the note table, but [keyToNoteMap["constructor"]] is the function
    [Object]: its press emits a note event, and so does its release.
    [note.freq] is [undefined] there, and both events carry the
    frequency [NaN], which is no base frequency times a power of two. *)
Theorem inherited_key_frequency_is_nan :
  let r1 := keyHandler (press "constructor") (constructor None None) in
  let r2 := keyHandler (release "constructor") (this r1) in
  keyToNoteMap !! "constructor" = None /\
  (exists ev, ev ∈ events r1 /\ is_note_on ev /\
     voice (data ev) = Some (Number 0) /\
     note (data ev) = Some (Key.Member "constructor") /\
     freq (data ev) = Some NotANumber) /\
  (exists ev, ev ∈ events r2 /\ is_note_off ev /\
     voice (data ev) = Some (Number 0) /\
     note (data ev) = Some (Key.Member "constructor") /\
     freq (data ev) = Some NotANumber).
Proof.
  vm_compute. split_and!; [reflexivity|..];
    (eexists; split; [left|]; split_and!; reflexivity).
Qed.

(** A note released after an octave change carries the new octave. *)
Example release_after_octave_up :
  let evs := [press "a"; press "x"; release "a"] in
  exists on_ev set_ev off_ev f,
    payload <$> (run evs (constructor None None)).2 = [on_ev; set_ev; off_ev] /\
    state (data set_ev) = Some (SNumber 2) /\
    is_note_off off_ev /\ voice (data off_ev) = Some (Number 0) /\
    freq (data off_ev) = Some (Hz f) /\ (f == 65.4)%Q /\
    activeVoices (run evs (constructor None None)).1 = 0.
Proof.
  vm_compute. do 4 eexists. split_and!; try reflexivity.
Qed.

(** ** Hold mode *)

Lemma note_descriptors_nodup : NoDup note_entries.*2.
Proof. apply (bool_decide_unpack _). vm_compute. exact I. Qed.

(** Two keys with the same note descriptor are the same key. *)
Lemma keyToNoteMap_inj k1 k2 n :
  keyToNoteMap !! k1 = Some n -> keyToNoteMap !! k2 = Some n -> k1 = k2.
Proof.
  intros H1%note_lookup_entry H2%note_lookup_entry.
  apply list_elem_of_lookup in H1 as [i1 H1].
  apply list_elem_of_lookup in H2 as [i2 H2].
  assert (i1 = i2) as <-.
  { eapply NoDup_lookup; [apply note_descriptors_nodup|..];
      rewrite list_lookup_fmap; [rewrite H1|rewrite H2]; reflexivity. }
  congruence.
Qed.

(** The entries of the note table are note descriptors. *)
Lemma note_entry_not_member k name : keyToNoteMap !! k <> Some (Key.Member name).
Proof.
  intros H%note_lookup_entry. unfold note_entries in H.
  repeat (apply elem_of_cons in H as [H|H]; [discriminate H|]).
  by apply elem_of_nil in H.
Qed.

(** What [keyToNoteMap[key]] gives for two keys is the same only when
    the keys are. *)
Lemma read_note_inj k1 k2 n :
  keyToNoteMap !! k1 = Some n -> read_note k2 = Some n -> k1 = k2.
Proof.
  intros H1 H2. unfold read_note, read in H2.
  destruct (keyToNoteMap !! k2) as [n2|] eqn:Hn2.
  - injection H2 as ->. by apply (keyToNoteMap_inj _ _ n).
  - case_bool_decide; [|done]. injection H2 as <-.
    by apply note_entry_not_member in H1.
Qed.

Lemma write_lookup_Some {V} k (a : V) held k2 v2 :
  write k a held !! k2 = Some v2 ->
  (k2 = k /\ v2 = a) \/ held !! k2 = Some v2.
Proof.
  unfold write. destruct (decide (k = "__proto__")) as [->|Hne].
  - destruct (held !! "__proto__") eqn:Hp; [|by right].
    destruct (decide (k2 = "__proto__")) as [->|Hne].
    + rewrite lookup_insert_eq. intros [= <-]. by left.
    + rewrite lookup_insert_ne by done. by right.
  - destruct (decide (k2 = k)) as [->|Hne2].
    + rewrite lookup_insert_eq. intros [= <-]. by left.
    + rewrite lookup_insert_ne by done. by right.
Qed.

Lemma write_keeps {V} k (a : V) held k2 :
  is_Some (held !! k2) -> is_Some (write k a held !! k2).
Proof.
  intros Hs. unfold write. destruct (decide (k = "__proto__")) as [->|Hne].
  - destruct (held !! "__proto__") eqn:Hp; [|done].
    destruct (decide ("__proto__" = k2)) as [<-|Hne].
    + rewrite lookup_insert_eq. eauto.
    + by rewrite lookup_insert_ne.
  - destruct (decide (k = k2)) as [<-|Hne2].
    + rewrite lookup_insert_eq. eauto.
    + by rewrite lookup_insert_ne.
Qed.

Lemma stuck_step k v e st :
  board_inv st -> stuck k v st ->
  ~ (type e = "keyup" /\ toLowerCase (key e) = k) ->
  let r := keyHandler e st in
  stuck k v (this r) /\
  forall ev, ev ∈ events r -> is_note_off ev ->
    voice (data ev) <> Some (Number v) /\ note (data ev) <> keyToNoteMap !! k.
Proof.
  intros Hinv (Hk & Hv & Hother) Hne. unfold events.
  apply (keyHandler_cases (fun r => stuck k v (this r) /\
    forall ev, ev ∈ payload <$> emitted r -> is_note_off ev -> _)); simpl.
  all: try (intros; split; [done|]; intros ev Hev; by apply not_elem_of_nil in Hev).
  - (* triggering press *)
    intros n _ _ _. split.
    + split_and!; simpl; [|lia|].
      * destruct (decide (toLowerCase (key e) = k)) as [->|Hd].
        -- rewrite lookup_insert_eq. eauto.
        -- by rewrite lookup_insert_ne.
      * intros k2 v2.
        destruct (decide (toLowerCase (key e) = k2)) as [->|Hd].
        -- rewrite lookup_insert_eq. intros [= <-] _. lia.
        -- rewrite lookup_insert_ne by done. apply Hother.
    + intros ev ->%list_elem_of_singleton Hoff. discriminate Hoff.
  - (* command *)
    intros c d _ _ _ _ _ _ _ Hs. split.
    + unfold stuck. by rewrite commanded_heldKeys, commanded_activeVoices.
    + intros ev ->%list_elem_of_singleton Hoff. by apply Hs in Hoff.
  - (* release of another key *)
    intros w n Hty Hw _ Hn.
    assert (toLowerCase (key e) <> k) as Hd by tauto.
    assert (delete (toLowerCase (key e)) (heldKeys st) !! k = heldKeys st !! k)
      as Hkeep by by apply lookup_delete_ne.
    split.
    + rewrite reset_if_idle_busy.
      * split_and!; simpl; [by rewrite Hkeep|done|].
        intros k2 v2 [_ H2]%lookup_delete_Some. by apply Hother.
      * simpl. intros He. rewrite He, lookup_empty in Hkeep.
        rewrite <- Hkeep in Hk. by destruct Hk.
    + intros ev ->%list_elem_of_singleton _. simpl. split.
      * intros [= ->]. unfold read_held, read in Hw.
        destruct (heldKeys st !! toLowerCase (key e)) as [w|] eqn:Hw'.
        -- injection Hw as ->. by apply (Hother _ _ Hw').
        -- by case_bool_decide.
      * intros Heq. symmetry in Heq. apply Hd. symmetry.
        by apply (read_note_inj _ _ n).
  - (* a held key without a note: excluded *)
    intros w _ Hw _ Hnone. apply (inv_held_notes _ Hinv), held_key_note_defined in Hw.
    rewrite Hnone in Hw. by destruct Hw.
  - (* ignored release *)
    intros _ _. destruct Hk as [w Hw]. rewrite (reset_if_idle_held _ _ _ Hw).
    split; [by split_and!; eauto|].
    intros ev Hev. by apply not_elem_of_nil in Hev.
  - (* triggering press of an inherited name *)
    intros _ _ _. split.
    + split_and!; simpl; [by apply write_keeps|lia|].
      intros k2 v2 H2 Hk2.
      apply write_lookup_Some in H2 as [[_ ->]|H2]; [lia|by apply (Hother k2)].
    + intros ev [->|Hev]%elem_of_cons Hoff; [discriminate Hoff|].
      apply list_elem_of_singleton in Hev as ->. discriminate Hoff.
  - (* press of a held inherited name *)
    intros w _ _ _ _. split; [done|].
    intros ev ->%list_elem_of_singleton Hoff. discriminate Hoff.
Qed.

Lemma stuck_run k v evs : forall st,
  board_inv st -> stuck k v st ->
  Forall (fun e => ~ (type e = "keyup" /\ toLowerCase (key e) = k)) evs ->
  stuck k v (run evs st).1 /\
  forall ev, ev ∈ payload <$> (run evs st).2 -> is_note_off ev ->
    voice (data ev) <> Some (Number v) /\ note (data ev) <> keyToNoteMap !! k.
Proof.
  induction evs as [|e evs IH]; intros st Hinv Hst Hall; simpl.
  - split; [done|]. intros ev Hev. by apply not_elem_of_nil in Hev.
  - inversion Hall as [|? ? He Hevs]; subst.
    destruct (stuck_step k v e st Hinv Hst He) as [Hst' Hout].
    destruct (IH (this (keyHandler e st))) as [Hfin Hrest];
      auto using keyHandler_inv.
    split; [done|]. intros ev. rewrite fmap_app, elem_of_app.
    intros [Hev|Hev]; [by apply Hout | by apply Hrest].
Qed.

Lemma held_key_stuck k v st :
  board_inv st -> heldKeys st !! k = Some v -> stuck k v st.
Proof.
  intros Hinv Hv. split_and!; [eauto| |].
  - by apply (inv_voice_bound _ Hinv k).
  - intros k2 v2 H2 Hne ->. apply Hne. by apply (inv_voice_inj _ Hinv k2 k v).
Qed.

(** C7: while hold mode is on, a release emits nothing and leaves
    [heldKeys] as it is; when the released key was held with voice [v],
    the key stays in [heldKeys] and no note-off for that voice or that
    key's note is emitted by any later events, hold-mode toggles
    included, as long as none of them is a release of that key. *)
Theorem hold_mode_suppresses_release st e :
  reachable st -> holdMode st = true -> type e = "keyup" ->
  let k := toLowerCase (key e) in
  let r := keyHandler e st in
  events r = [] /\ heldKeys (this r) = heldKeys st /\
  forall v evs,
    heldKeys st !! k = Some v ->
    Forall (fun e' => ~ (type e' = "keyup" /\ toLowerCase (key e') = k)) evs ->
    is_Some (heldKeys (run evs (this r)).1 !! k) /\
    forall ev, ev ∈ payload <$> (run evs (this r)).2 -> is_note_off ev ->
      voice (data ev) <> Some (Number v) /\ note (data ev) <> keyToNoteMap !! k.
Proof.
  intros Hreach Hh Hty k r. pose proof (reachable_inv _ Hreach) as Hinv.
  assert (r = Res (Normal tt) (reset_if_idle st) []) as ->.
  { unfold r. by rewrite keyHandler_release_ignored by auto. }
  split_and!; [done|apply reset_if_idle_heldKeys|].
  cbn [this]. intros v evs Hv Hall. rewrite (reset_if_idle_held _ _ _ Hv).
  destruct (stuck_run k v evs st Hinv (held_key_stuck _ _ _ Hinv Hv) Hall)
    as [(Hk & _) Hout].
  done.
Qed.

Lemma run_reachable evs : forall st, reachable st -> reachable (run evs st).1.
Proof.
  induction evs as [|e evs IH]; intros st H; simpl; [done|].
  by apply IH, reach_key.
Qed.

Lemma hold_mode_suppresses_release_witness :
  let st := (run [press "b"; press "a"] (constructor None None)).1 in
  let r := keyHandler (release "a") st in
  let evs := [press "b"; press "s"; release "s"] in
  events r = [] /\ heldKeys (this r) = heldKeys st /\
  is_Some (heldKeys (run evs (this r)).1 !! "a") /\
  forall ev, ev ∈ payload <$> (run evs (this r)).2 -> is_note_off ev ->
    voice (data ev) <> Some (Number 0) /\ note (data ev) <> keyToNoteMap !! "a".
Proof.
  destruct (hold_mode_suppresses_release
              (run [press "b"; press "a"] (constructor None None)).1
              (release "a")) as (H1 & H2 & H3).
  - apply run_reachable, reach_new.
  - reflexivity.
  - reflexivity.
  - split; [exact H1|]. split; [exact H2|].
    apply (H3 0 [press "b"; press "s"; release "s"]).
    + vm_compute. reflexivity.
    + repeat constructor; intros [_ Hk]; vm_compute in Hk; discriminate.
Defined.

(** ** Ignored events *)

(** C8 does not hold of the code.  The key "constructor" is in neither
    table, yet its press on a new keyboard emits two events, with
    actions "date" and "settings", enters [heldKeys] and moves the voice
    counter, and its release emits an event with action "gate".  After
    a press of "__proto__", which leaves the counter at 1 with no key
    held, the release of the unmapped key "q" changes the state too: it
    puts the counter back to 0. *)
Theorem inherited_key_not_ignored :
  let st := constructor None None in
  let r1 := keyHandler (press "constructor") st in
  let r2 := keyHandler (release "constructor") (this r1) in
  let st' := this (keyHandler (press "__proto__") st) in
  (keyToNoteMap !! "constructor" = None /\
   keyToCommandsMap !! "constructor" = None) /\
  action <$> events r1 = ["date"; "settings"] /\
  heldKeys (this r1) = {["constructor" := 0]} /\
  activeVoices (this r1) = 1 /\
  action <$> events r2 = ["gate"] /\
  (keyToNoteMap !! "q" = None /\ keyToCommandsMap !! "q" = None) /\
  activeVoices st' = 1 /\
  activeVoices (this (keyHandler (release "q") st')) = 0.
Proof. vm_compute. split_and!; reflexivity. Qed.

(** ** Subscribers *)

(** Every call of [emit] made by the handler goes to the subscribers
    registered when the handler was called. *)
Lemma keyHandler_receivers e st em :
  em ∈ emitted (keyHandler e st) -> receivers em = subscribers st.
Proof.
  apply (keyHandler_cases (fun r => em ∈ emitted r -> _)); simpl.
  all: try (intros; exfalso; eapply not_elem_of_nil; eassumption).
  all: intros;
    repeat match goal with
           | H : _ ∈ _ :: _ |- _ => apply elem_of_cons in H as [->|H]
           | H : _ ∈ [] |- _ => by apply not_elem_of_nil in H
           end; done.
Qed.

Lemma absent_count_zero (c : Callback) l :
  c ∉ l -> length (filter (fun f => f = c) l) = 0%nat.
Proof.
  induction l as [|x l IH]; intros Hnin; [done|].
  apply not_elem_of_cons in Hnin as [Hne Hnin].
  rewrite filter_cons_False by congruence. by apply IH.
Qed.

Lemma NoDup_count_one (c : Callback) l :
  NoDup l -> c ∈ l -> length (filter (fun f => f = c) l) = 1%nat.
Proof.
  induction 1 as [|x l Hx Hl IH]; intros Hin.
  - by apply not_elem_of_nil in Hin.
  - destruct (decide (x = c)) as [->|Hne].
    + rewrite filter_cons_True by done. simpl. f_equal.
      by apply absent_count_zero.
    + rewrite filter_cons_False by done. apply IH.
      apply elem_of_cons in Hin as [->|Hin]; done.
Qed.

Lemma subscribe_registers c st : c ∈ subscribers (this (subscribe c st)).
Proof.
  destruct (decide (c ∈ subscribers st)) as [Hin|Hin].
  - by rewrite subscribe_registered.
  - rewrite subscribe_fresh by done. simpl. apply elem_of_app. right. left.
Qed.

(** A callback that every emission calls once is called with the
    emitted events, in their order. *)
Lemma calls_once c out :
  Forall (fun em => deliveries c em = 1%nat) out -> calls c out = payload <$> out.
Proof.
  induction 1 as [|em out Hem _ IH]; [done|].
  unfold calls in *. cbn [mbind list_bind fmap list_fmap]. rewrite Hem, IH. done.
Qed.

(** C9: subscribing a registered callback changes nothing and returns
    the keyboard, and so does unsubscribing a callback that is not
    registered.  After two subscriptions of a callback the list is as
    after the first; [emit] then makes one emission, which calls the
    callback once with the object passed; every emission of the handler
    calls it once, so that the callback is called with the events of
    the handler in their order: once with the note-on when a note key
    that is not held is pressed. *)
Theorem subscribe_twice_delivers_once st c :
  reachable st ->
  (c ∈ subscribers st -> subscribe c st = Res (Normal st) st []) /\
  (let st2 := this (subscribe c (this (subscribe c st))) in
   subscribers st2 = subscribers (this (subscribe c st)) /\
   (forall d, exists em,
      emitted (emit d st2) = [em] /\ payload em = d /\
      deliveries c em = 1%nat /\ calls c (emitted (emit d st2)) = [d]) /\
   (forall e em, em ∈ emitted (keyHandler e st2) -> deliveries c em = 1%nat) /\
   (forall e, calls c (emitted (keyHandler e st2)) = events (keyHandler e st2)) /\
   (forall e n,
      type e = "keydown" -> keyToNoteMap !! toLowerCase (key e) = Some n ->
      heldKeys st !! toLowerCase (key e) = None ->
      calls c (emitted (keyHandler e st2)) =
      [note_event "date" n (activeVoices st) "on" st])) /\
  (c ∉ subscribers st -> unsubscribe c st = Res (Normal st) st []).
Proof.
  intros Hreach. split_and!.
  - apply subscribe_registered.
  - pose proof (subscribe_registers c st) as Hin.
    rewrite (subscribe_registered c (this (subscribe c st)) Hin). cbn [this].
    pose proof (inv_subscribers _
      (subscribe_inv c st (reachable_inv _ Hreach))) as Hnd.
    assert (forall e em, em ∈ emitted (keyHandler e (this (subscribe c st))) ->
              deliveries c em = 1%nat) as Hone.
    { intros e em Hem%keyHandler_receivers. unfold deliveries. rewrite Hem.
      by apply NoDup_count_one. }
    assert (forall e, calls c (emitted (keyHandler e (this (subscribe c st)))) =
                      events (keyHandler e (this (subscribe c st)))) as Hcalls.
    { intros e. apply calls_once, Forall_forall. apply Hone. }
    split_and!; [done| |done|done|].
    + intros d. eexists. split; [reflexivity|]. split; [reflexivity|].
      assert (deliveries c (Emitted d (subscribers (this (subscribe c st))))
              = 1%nat) as Hd by by apply NoDup_count_one.
      split; [done|]. unfold calls, emit. cbn [emitted mbind list_bind payload].
      rewrite Hd. reflexivity.
    + intros e n Hty Hn Hfree. rewrite Hcalls. unfold events.
      assert (exists su, this (subscribe c st) =
                Board (octave st) (velocity st) (holdMode st) (heldKeys st) su
                      (activeVoices st)) as [su Hsu].
      { destruct (decide (c ∈ subscribers st)) as [Hc|Hc].
        - rewrite subscribe_registered by done. exists (subscribers st).
          by destruct st.
        - rewrite subscribe_fresh by done. eauto. }
      rewrite Hsu. rewrite (keyHandler_press_trigger e _ n) by (auto; by left).
      reflexivity.
  - apply unsubscribe_absent.
Qed.

Lemma subscribe_twice_delivers_once_witness :
  let st := this (subscribe 7%nat (constructor None None)) in
  let st2 := this (subscribe 3%nat (this (subscribe 3%nat st))) in
  subscribe 7%nat st = Res (Normal st) st [] /\
  subscribers st2 = [7%nat; 3%nat] /\
  calls 3%nat (emitted (keyHandler (press "a") st2)) =
    [note_event "date" (Key.Entry "C" 16.35%Q) 0 "on" st] /\
  unsubscribe 5%nat st = Res (Normal st) st [].
Proof.
  destruct (subscribe_twice_delivers_once
              (this (subscribe 7%nat (constructor None None))) 7%nat)
    as (H1 & _ & _); [apply reach_subscribe, reach_new|].
  destruct (subscribe_twice_delivers_once
              (this (subscribe 7%nat (constructor None None))) 3%nat)
    as (_ & (_ & _ & _ & _ & H2) & _); [apply reach_subscribe, reach_new|].
  destruct (subscribe_twice_delivers_once
              (this (subscribe 7%nat (constructor None None))) 5%nat)
    as (_ & _ & H3); [apply reach_subscribe, reach_new|].
  split_and!.
  - apply H1. vm_compute. left.
  - reflexivity.
  - apply (H2 (press "a")); reflexivity.
  - apply H3. vm_compute. intros H. inversion H as [|? ? ? H']; inversion H'.
Defined.

(** ** Held keys and note keys *)

(** C10 does not hold of the code.  The function [Object], which
    [keyToNoteMap["constructor"]] gives, passes the test [note &&
    doTrigger]: after a press of the key "constructor" on a new keyboard
    [heldKeys] has the key "constructor", which has no entry in the
    note table.  Its release emits a note-off whose note is that
    function and whose [freq] is [NaN]. *)
Theorem inherited_key_is_held :
  let st := this (keyHandler (press "constructor") (constructor None None)) in
  let r := keyHandler (release "constructor") st in
  heldKeys st !! "constructor" = Some 0 /\
  keyToNoteMap !! "constructor" = None /\
  completion r = Normal tt /\
  events r = [note_event "gate" (Key.Member "constructor") 0 "off" st] /\
  freq (data (note_event "gate" (Key.Member "constructor") 0 "off" st))
    = Some NotANumber.
Proof. vm_compute. split_and!; reflexivity. Qed.

(** ** Scenarios *)

Example press_a :
  events (keyHandler (press "a") (constructor None None)) =
  [NoteData "date" (ActionData (Some (Key.Entry "C" 16.35%Q))
     (Some (Hz (16.35%Q * (2 # 1) ^ 1)%Q)) (Some (Number 0))
     (Some (SString "on")) None)].
Proof. vm_compute. reflexivity. Qed.

(** Hold mode on, "a" pressed twice, then released: voices 0 and 1, and
    nothing for the release. *)
Example hold_mode_retrigger :
  let out := payload <$>
    (run [press "b"; press "a"; press "a"; release "a"]
         (constructor None None)).2 in
  (fun ev => (action ev, voice (data ev), state (data ev))) <$> out =
  [("settings", None, Some (SBool true));
   ("date", Some (Number 0), Some (SString "on"));
   ("date", Some (Number 1), Some (SString "on"))].
Proof. vm_compute. reflexivity. Qed.

(** A held key that is pressed again with hold mode off is not
    triggered again. *)
Example held_key_not_retriggered :
  let r := run [press "a"; press "a"] (constructor None None) in
  length r.2 = 1%nat /\ heldKeys r.1 !! "a" = Some 0 /\ activeVoices r.1 = 1.
Proof. vm_compute. split_and!; reflexivity. Qed.

(** The key is lower-cased before the lookups. *)
Example upper_case_key :
  toLowerCase "A" = "a" /\
  events (keyHandler (press "A") (constructor None None)) =
  events (keyHandler (press "a") (constructor None None)).
Proof. split; reflexivity. Qed.

(** The Kelvin sign is the note key "k". *)
Example kelvin_sign_key :
  let K := String "226" (String "132" (String "170" "")) in
  toLowerCase K = "k" /\
  keyHandler (press K) (constructor None None) =
  keyHandler (press "k") (constructor None None).
Proof. split; reflexivity. Qed.

(** * Further properties *)

(** ** Settings *)

Lemma keyHandler_command_exact e st c :
  type e = "keydown" ->
  keyToCommandsMap !! toLowerCase (key e) = Some c ->
  keyHandler e st =
  Res (Normal tt) (commanded c st)
      [Emitted (NoteData "settings"
                  (ActionData None None None
                     (setting_value c (commanded c st)) (Some c)))
               (subscribers st)].
Proof.
  intros Hty Hc. pose proof (command_key_no_note _ _ Hc) as Hn.
  unfold_handler.
  rewrite Hty, (read_own _ _ _ Hc),
    (read_note_undefined _ Hn (command_key_not_inherited _ _ Hc)).
  destruct (command_cases _ _ Hc) as [->|[->|[->|[->| ->]]]];
    unfold command_data, command_switch; run_handler; reflexivity.
Qed.

(** X2: the press of a command key emits exactly one event, with action
    "settings", the command word, and the value of the setting after
    the change; held keys, voice counter and subscribers are untouched. *)
Theorem command_press_reports_new_value e st c :
  type e = "keydown" ->
  keyToCommandsMap !! toLowerCase (key e) = Some c ->
  let r := keyHandler e st in
  completion r = Normal tt /\
  events r = [NoteData "settings"
                (ActionData None None None (setting_value c (this r)) (Some c))] /\
  is_Some (setting_value c (this r)) /\
  heldKeys (this r) = heldKeys st /\
  activeVoices (this r) = activeVoices st /\
  subscribers (this r) = subscribers st.
Proof.
  intros Hty Hc r. unfold r. rewrite (keyHandler_command_exact e st c) by done.
  simpl. rewrite commanded_heldKeys, commanded_activeVoices, commanded_subscribers.
  split_and!; try done.
  destruct (command_cases _ _ Hc) as [->|[->|[->|[->| ->]]]]; simpl; eauto.
Qed.

Lemma command_press_reports_new_value_witness :
  let st := Board 8 100 false ∅ [] 0 in
  let r := keyHandler (press "X") st in
  completion r = Normal tt /\
  events r = [NoteData "settings"
                (ActionData None None None (Some (SNumber 8)) (Some "octave-up"))] /\
  heldKeys (this r) = heldKeys st.
Proof.
  destruct (command_press_reports_new_value (press "X")
              (Board 8 100 false ∅ [] 0) "octave-up")
    as (H1 & H2 & _ & H3 & _); [reflexivity..|].
  split_and!; [exact H1 | exact H2 | exact H3].
Defined.

Lemma press_x st :
  this (keyHandler (press "x") st) = commanded "octave-up" st.
Proof. by rewrite (keyHandler_command_exact _ st "octave-up"). Qed.

Lemma press_z st :
  this (keyHandler (press "z") st) = commanded "octave-down" st.
Proof. by rewrite (keyHandler_command_exact _ st "octave-down"). Qed.

Lemma press_v st :
  this (keyHandler (press "v") st) = commanded "velocity-up" st.
Proof. by rewrite (keyHandler_command_exact _ st "velocity-up"). Qed.

Lemma press_c st :
  this (keyHandler (press "c") st) = commanded "velocity-down" st.
Proof. by rewrite (keyHandler_command_exact _ st "velocity-down"). Qed.

Lemma press_b st :
  this (keyHandler (press "b") st) = commanded "hold-mode" st.
Proof. by rewrite (keyHandler_command_exact _ st "hold-mode"). Qed.

(** X3: with octave and velocity in range, octave-up then octave-down
    gives the octave back, except from 8 where it ends at 7; octave-down
    then octave-up gives it back except from -8 (ends at -7); the same
    for velocity with steps of 5, which is given back only between 0
    and 122 (up first) or between 5 and 127 (down first).  Nothing else
    of the keyboard changes. *)
Theorem up_down_round_trip st :
  -8 <= octave st <= 8 -> 0 <= velocity st <= 127 ->
  let after a b := this (keyHandler (press b) (this (keyHandler (press a) st))) in
  after "x" "z" =
    Board (Z.min (octave st) 7) (velocity st) (holdMode st) (heldKeys st)
          (subscribers st) (activeVoices st) /\
  after "z" "x" =
    Board (Z.max (octave st) (-7)) (velocity st) (holdMode st) (heldKeys st)
          (subscribers st) (activeVoices st) /\
  after "v" "c" =
    Board (octave st) (Z.min (velocity st) 122) (holdMode st) (heldKeys st)
          (subscribers st) (activeVoices st) /\
  after "c" "v" =
    Board (octave st) (Z.max (velocity st) 5) (holdMode st) (heldKeys st)
          (subscribers st) (activeVoices st).
Proof.
  intros Ho Hv after. unfold after.
  rewrite !press_x, !press_z, !press_v, !press_c.
  destruct st as [o v h hk su av]. unfold commanded. simpl in *.
  unfold limitTo. split_and!; f_equal; lia.
Qed.

Lemma up_down_round_trip_witness :
  let top := Board 8 125 false ∅ [] 0 in
  let mid := constructor None None in
  this (keyHandler (press "z") (this (keyHandler (press "x") mid))) = mid /\
  octave (this (keyHandler (press "z") (this (keyHandler (press "x") top)))) = 7 /\
  velocity (this (keyHandler (press "c") (this (keyHandler (press "v") top)))) = 122.
Proof.
  destruct (up_down_round_trip (constructor None None)) as (H1 & _);
    [simpl; lia..|].
  destruct (up_down_round_trip (Board 8 125 false ∅ [] 0)) as (H2 & _ & H3 & _);
    [simpl; lia..|].
  split_and!.
  - exact H1.
  - exact (f_equal octave H2).
  - exact (f_equal velocity H3).
Defined.

(** X4: two presses of the hold-mode key bring the keyboard back to the
    state it was in; the two settings events report the flag flipped and
    then the flag as it was. *)
Theorem hold_mode_toggle_twice st :
  let r1 := keyHandler (press "b") st in
  let r2 := keyHandler (press "b") (this r1) in
  this r2 = st /\
  holdMode (this r1) = negb (holdMode st) /\
  state <$> (data <$> events r1 ++ events r2) =
    [Some (SBool (negb (holdMode st))); Some (SBool (holdMode st))].
Proof.
  cbv zeta.
  rewrite (keyHandler_command_exact _ (this (keyHandler (press "b") st)) "hold-mode")
    by done.
  rewrite (keyHandler_command_exact _ st "hold-mode") by done.
  destruct st as [o v h hk su av]. unfold events, commanded, setting_value.
  simpl. rewrite negb_involutive. done.
Qed.

(** X5: repeated presses add up until the bound: from an octave in range,
    [n] octave-up presses give [min 8 (octave + n)] and [n] octave-down
    presses [max (-8) (octave - n)]; from a velocity in range, [n]
    velocity-up presses give [min 127 (velocity + 5 n)] and [n]
    velocity-down presses [max 0 (velocity - 5 n)]. *)
Theorem repeated_commands_saturate (n : nat) : forall st,
  -8 <= octave st <= 8 -> 0 <= velocity st <= 127 ->
  octave (run (replicate n (press "x")) st).1 = Z.min 8 (octave st + Z.of_nat n) /\
  octave (run (replicate n (press "z")) st).1 = Z.max (-8) (octave st - Z.of_nat n) /\
  velocity (run (replicate n (press "v")) st).1
    = Z.min 127 (velocity st + 5 * Z.of_nat n) /\
  velocity (run (replicate n (press "c")) st).1
    = Z.max 0 (velocity st - 5 * Z.of_nat n).
Proof.
  induction n as [|n IH]; intros st Ho Hv.
  - simpl. lia.
  - cbn [replicate run fst].
    destruct (IH (this (keyHandler (press "x") st))) as (-> & _);
      [rewrite press_x; destruct st; unfold commanded; simpl in *;
       unfold limitTo; lia..|].
    destruct (IH (this (keyHandler (press "z") st))) as (_ & -> & _);
      [rewrite press_z; destruct st; unfold commanded; simpl in *;
       unfold limitTo; lia..|].
    destruct (IH (this (keyHandler (press "v") st))) as (_ & _ & -> & _);
      [rewrite press_v; destruct st; unfold commanded; simpl in *;
       unfold limitTo; lia..|].
    destruct (IH (this (keyHandler (press "c") st))) as (_ & _ & _ & ->);
      [rewrite press_c; destruct st; unfold commanded; simpl in *;
       unfold limitTo; lia..|].
    rewrite press_x, press_z, press_v, press_c.
    clear IH. destruct st as [o v h hk su av]. unfold commanded. simpl in *.
    unfold limitTo. rewrite Nat2Z.inj_succ. split_and!; lia.
Qed.

Lemma repeated_commands_saturate_witness :
  let st := constructor None None in
  octave (run (replicate 20 (press "x")) st).1 = 8 /\
  octave (run (replicate 3 (press "z")) st).1 = -2 /\
  velocity (run (replicate 6 (press "v")) st).1 = 127 /\
  velocity (run (replicate 2 (press "c")) st).1 = 90.
Proof.
  destruct (repeated_commands_saturate 20 (constructor None None))
    as (H1 & _); [simpl; lia..|].
  destruct (repeated_commands_saturate 3 (constructor None None))
    as (_ & H2 & _); [simpl; lia..|].
  destruct (repeated_commands_saturate 6 (constructor None None))
    as (_ & _ & H3 & _); [simpl; lia..|].
  destruct (repeated_commands_saturate 2 (constructor None None))
    as (_ & _ & _ & H4); [simpl; lia..|].
  split_and!; [rewrite H1|rewrite H2|rewrite H3|rewrite H4]; reflexivity.
Defined.

(** ** Emissions of one call *)

(** X6: in any state, one call of the handler makes at most two calls of
    [emit], and at most one unless the key in lower case is
    "constructor" or "__proto__"; it never changes the subscriber list. *)
Theorem emissions_per_call e st :
  (length (emitted (keyHandler e st)) <= 2)%nat /\
  (toLowerCase (key e) <> "constructor" ->
   toLowerCase (key e) <> "__proto__" ->
   (length (emitted (keyHandler e st)) <= 1)%nat) /\
  subscribers (this (keyHandler e st)) = subscribers st.
Proof.
  apply (keyHandler_cases (fun r =>
    (length (emitted r) <= 2)%nat /\
    (toLowerCase (key e) <> "constructor" ->
     toLowerCase (key e) <> "__proto__" -> (length (emitted r) <= 1)%nat) /\
    subscribers (this r) = subscribers st));
    simpl; intros;
    rewrite ?commanded_subscribers, ?reset_if_idle_subscribers;
    split_and!; auto; intros;
    match goal with
    | H : _ ∈ object_prototype_names |- _ =>
        destruct (lower_case_inherited _ H); contradiction
    end.
Qed.

Lemma emissions_per_call_witness :
  length (emitted (keyHandler (press "a") (constructor None None))) = 1%nat /\
  length (emitted (keyHandler (press "Constructor") (constructor None None)))
    = 2%nat.
Proof.
  destruct (emissions_per_call (press "a") (constructor None None))
    as (_ & H1 & _).
  destruct (emissions_per_call (press "Constructor") (constructor None None))
    as (H2 & _).
  split; [|reflexivity].
  assert (length (emitted (keyHandler (press "a") (constructor None None)))
          <> 0%nat) as Hne by (vm_compute; discriminate).
  specialize (H1 ltac:(discriminate) ltac:(discriminate)). lia.
Defined.

(** ** Letter case *)

(** X7: the handler sees a key through its lower-case form only: two
    events of the same type whose keys differ by letter case have the
    same effect, and lower-casing a key beforehand changes nothing. *)
Theorem handler_ignores_letter_case e1 e2 st :
  type e1 = type e2 -> toLowerCase (key e1) = toLowerCase (key e2) ->
  keyHandler e1 st = keyHandler e2 st /\
  keyHandler (KeyEvent (toLowerCase (key e1)) (type e1)) st = keyHandler e1 st.
Proof.
  intros Hty Hk. split.
  - unfold keyHandler. by rewrite Hty, Hk.
  - unfold keyHandler. simpl key. simpl type. by rewrite toLowerCase_idem.
Qed.

Lemma handler_ignores_letter_case_witness :
  keyHandler (press "A") (constructor None None) =
  keyHandler (press "a") (constructor None None).
Proof.
  apply (handler_ignores_letter_case (press "A") (press "a")); reflexivity.
Defined.

(** ** Voices *)





(** ** The unguarded read of [note.freq] *)

(** X10: if [heldKeys] holds a key for which [keyToNoteMap[key]] is
    [undefined] (the field is public, and the key is neither a note key
    nor the name of a member of [Object.prototype]), the release of that
    key with hold mode off deletes the entry, then throws a [TypeError]:
    nothing is emitted and the voice counter is left as it is, even
    when no key is held any more. *)
Theorem release_without_note_throws e st v :
  type e = "keyup" ->
  heldKeys st !! toLowerCase (key e) = Some v ->
  holdMode st = false ->
  keyToNoteMap !! toLowerCase (key e) = None ->
  toLowerCase (key e) ∉ object_prototype_names ->
  let r := keyHandler e st in
  completion r = Throw "TypeError" /\
  emitted r = [] /\
  heldKeys (this r) = delete (toLowerCase (key e)) (heldKeys st) /\
  activeVoices (this r) = activeVoices st.
Proof.
  intros Hty Hv Hh Hn Hin. cbv zeta.
  by rewrite (keyHandler_release_no_note e st v)
    by auto using read_note_undefined.
Qed.

Lemma release_without_note_throws_witness :
  let st := Board 1 100 false {["q" := 5]} [] 6 in
  let r := keyHandler (release "q") st in
  completion r = Throw "TypeError" /\
  emitted r = [] /\
  heldKeys (this r) = delete "q" (heldKeys st) /\
  activeVoices (this r) = 6.
Proof.
  apply (release_without_note_throws (release "q")
           (Board 1 100 false {["q" := 5]} [] 6) 5); try reflexivity.
  apply (bool_decide_unpack _). vm_compute. exact I.
Defined.

(** ** Octave and frequency *)

Lemma Qpower_two_succ (f : Q) (o : Z) :
  (f * (2 # 1) ^ (o + 1) == (2 # 1) * (f * (2 # 1) ^ o))%Q.
Proof.
  rewrite Qpower_plus by discriminate. rewrite Qpower_1_r. ring.
Qed.

(** X11: below the top octave, a press of the octave-up key doubles the
    frequency of what the handler emits next for a key of the note
    table: the note event that a call would have emitted before the
    octave change is emitted after it with the same note and voice and
    twice the frequency. *)
Theorem octave_up_doubles_frequency e st ev :
  -8 <= octave st <= 7 ->
  is_Some (keyToNoteMap !! toLowerCase (key e)) ->
  ev ∈ events (keyHandler e st) -> is_Some (voice (data ev)) ->
  exists ev' f f',
    events (keyHandler e (this (keyHandler (press "x") st))) = [ev'] /\
    action ev' = action ev /\ state (data ev') = state (data ev) /\
    note (data ev') = note (data ev) /\ voice (data ev') = voice (data ev) /\
    freq (data ev) = Some (Hz f) /\ freq (data ev') = Some (Hz f') /\
    (f' == (2 # 1) * f)%Q.
Proof.
  intros Ho [n Hn]. rewrite press_x.
  assert (commanded "octave-up" st =
          Board (octave st + 1) (velocity st) (holdMode st) (heldKeys st)
                (subscribers st) (activeVoices st)) as ->.
  { unfold commanded. simpl. f_equal. unfold limitTo. lia. }
  pose proof (note_key_not_inherited _ _ Hn) as Hni.
  pose proof (note_lookup_entry _ _ Hn) as Hentry.
  assert (exists l q, n = Key.Entry l q) as (l & q & ->).
  { destruct n as [l q|name]; [eauto|]. by apply note_entry_not_member in Hn. }
  destruct (decide (type e = "keydown")) as [Hd|Hd];
    [|destruct (decide (type e = "keyup")) as [Hu|Hu]].
  - destruct (heldKeys st !! toLowerCase (key e)) as [w|] eqn:Hw;
      [destruct (holdMode st) eqn:Hh|].
    + rewrite !(keyHandler_press_trigger e _ (Key.Entry l q)) by auto.
      unfold events. simpl. intros ->%list_elem_of_singleton _.
      do 3 eexists. split_and!; try reflexivity. simpl. apply Qpower_two_succ.
    + rewrite (keyHandler_press_held e st (Key.Entry l q) w) by done.
      intros Hev. by apply not_elem_of_nil in Hev.
    + rewrite !(keyHandler_press_trigger e _ (Key.Entry l q)) by auto.
      unfold events. simpl. intros ->%list_elem_of_singleton _.
      do 3 eexists. split_and!; try reflexivity. simpl. apply Qpower_two_succ.
  - destruct (heldKeys st !! toLowerCase (key e)) as [w|] eqn:Hw;
      [destruct (holdMode st) eqn:Hh|].
    + rewrite keyHandler_release_ignored by auto.
      intros Hev. by apply not_elem_of_nil in Hev.
    + rewrite !(keyHandler_release_held e _ w (Key.Entry l q)) by done.
      unfold events. simpl. intros ->%list_elem_of_singleton _.
      do 3 eexists. split_and!; try reflexivity. simpl. apply Qpower_two_succ.
    + rewrite keyHandler_release_ignored;
        [|done|left; by apply read_held_undefined].
      intros Hev. by apply not_elem_of_nil in Hev.
  - rewrite keyHandler_other_type by done.
    intros Hev. by apply not_elem_of_nil in Hev.
Qed.

Lemma octave_up_doubles_frequency_witness :
  let st := constructor None None in
  exists ev' f f',
    events (keyHandler (press "a") (this (keyHandler (press "x") st))) = [ev'] /\
    freq (data (note_event "date" (Key.Entry "C" 16.35%Q) 0 "on" st))
      = Some (Hz f) /\
    freq (data ev') = Some (Hz f') /\ (f' == (2 # 1) * f)%Q.
Proof.
  destruct (octave_up_doubles_frequency (press "a") (constructor None None)
              (note_event "date" (Key.Entry "C" 16.35%Q) 0 "on"
                 (constructor None None)))
    as (ev' & f & f' & H1 & _ & _ & _ & _ & H2 & H3 & H4).
  - simpl. lia.
  - vm_compute. eauto.
  - vm_compute. left.
  - simpl. eauto.
  - exists ev', f, f'. split_and!; assumption.
Defined.

(** ** Velocity *)

Lemma reset_if_idle_with_velocity v st :
  reset_if_idle (with_velocity v st) = with_velocity v (reset_if_idle st).
Proof. unfold reset_if_idle. simpl. case_bool_decide; reflexivity. Qed.

(** X12: the velocity is neither read nor written by the handler except
    for the two velocity keys: for any other event, changing the
    velocity beforehand changes neither what is emitted nor how the
    call completes, and the state after the call differs in the
    velocity only. *)
Theorem velocity_is_not_used e st v :
  ~ velocity_key (toLowerCase (key e)) ->
  let r := keyHandler e st in
  keyHandler e (with_velocity v st) =
  Res (completion r) (with_velocity v (this r)) (emitted r).
Proof.
  intros Hnv. cbv zeta.
  assert (exists oc, keyToCommandsMap !! toLowerCase (key e) = oc)
    as [oc Hc] by eauto.
  destruct (decide (type e = "keydown")) as [Hd|Hd]; [destruct oc as [c|]|].
  - (* a command key other than the velocity keys *)
    rewrite (keyHandler_command_exact e (with_velocity v st) c) by done.
    rewrite (keyHandler_command_exact e st c) by done.
    assert (c <> "velocity-up" /\ c <> "velocity-down") as [Hup Hdown].
    { split; intros ->; apply Hnv; [by left | by right]. }
    destruct (command_cases _ _ Hc) as [->|[->|[->|[->| ->]]]]; done.
  - apply (keyHandler_cases (fun r =>
      keyHandler e (with_velocity v st) =
      Res (completion r) (with_velocity v (this r)) (emitted r))); simpl;
      try congruence.
    + intros n Hty Hn Htr. by rewrite (keyHandler_press_trigger e _ n).
    + intros n w Hty Hn Hw Hh. by rewrite (keyHandler_press_held e _ n w).
    + intros Hty Hn _ Hin. by rewrite keyHandler_press_unmapped.
    + intros Hty Hin Htr. by rewrite keyHandler_press_inherited_trigger.
    + intros w Hty Hin Hw Hh.
      by rewrite (keyHandler_press_inherited_held e _ w).
  - apply (keyHandler_cases (fun r =>
      keyHandler e (with_velocity v st) =
      Res (completion r) (with_velocity v (this r)) (emitted r))); simpl;
      try congruence.
    + intros _ Hu. by rewrite keyHandler_other_type.
    + intros w n Hty Hw Hh Hn.
      rewrite (keyHandler_release_read e _ w n) by done.
      by rewrite <- reset_if_idle_with_velocity.
    + intros w Hty Hw Hh Hn. by rewrite (keyHandler_release_no_note e _ w).
    + intros Hty Hig. rewrite keyHandler_release_ignored by done.
      by rewrite reset_if_idle_with_velocity.
Qed.

Lemma velocity_is_not_used_witness :
  let st := constructor None None in
  keyHandler (press "a") (with_velocity 5 st) =
  Res (completion (keyHandler (press "a") st))
      (with_velocity 5 (this (keyHandler (press "a") st)))
      (emitted (keyHandler (press "a") st)).
Proof.
  apply (velocity_is_not_used (press "a") (constructor None None) 5).
  intros [H|H]; vm_compute in H; discriminate.
Defined.

(** ** Subscribing and unsubscribing *)

Lemma indexOf_app_fresh l c :
  c ∉ l -> indexOf (l ++ [c]) c = Z.of_nat (length l).
Proof.
  induction l as [|x l IH]; intros Hnin; simpl.
  - by rewrite decide_True.
  - apply not_elem_of_cons in Hnin as [Hne Hnin].
    rewrite decide_False by congruence. rewrite (IH Hnin).
    destruct (Z.of_nat (length l) <? 0) eqn:E; [apply Z.ltb_lt in E|]; lia.
Qed.

Lemma splice1_last l c : splice1 (Z.of_nat (length l)) (l ++ [c]) = l.
Proof.
  unfold splice1. rewrite Nat2Z.id.
  rewrite take_app_length. rewrite drop_ge by (rewrite length_app; simpl; lia).
  apply app_nil_r.
Qed.

Lemma filter_ne_absent (c : Callback) (l : list Callback) :
  c ∉ l -> filter (fun x => x <> c) l = l.
Proof.
  induction l as [|x l IH]; intros Hnin; [done|].
  apply not_elem_of_cons in Hnin as [Hne Hnin].
  rewrite filter_cons_True by congruence. by rewrite IH.
Qed.

Lemma splice1_indexOf_filter (l : list Callback) c :
  NoDup l -> c ∈ l -> splice1 (indexOf l c) l = filter (fun x => x <> c) l.
Proof.
  induction 1 as [|x l Hx Hl IH]; intros Hin.
  - by apply not_elem_of_nil in Hin.
  - simpl indexOf. case_decide as Hxc.
    + subst x. rewrite filter_cons_False by tauto.
      rewrite filter_ne_absent by done. reflexivity.
    + apply elem_of_cons in Hin as [->|Hin]; [done|].
      rewrite filter_cons_True by done. rewrite <- IH by done.
      destruct (indexOf l c <? 0) eqn:E.
      * apply Z.ltb_lt, indexOf_absent in E. contradiction.
      * apply Z.ltb_ge in E. unfold splice1.
        rewrite Z2Nat.inj_add by lia. rewrite Nat.add_1_r. reflexivity.
Qed.

(** X13: subscribing a callback that is not registered and then
    unsubscribing it gives the keyboard back as it was; both calls
    return the keyboard. *)
Theorem subscribe_unsubscribe_round_trip c st :
  c ∉ subscribers st ->
  let r1 := subscribe c st in
  let r2 := unsubscribe c (this r1) in
  completion r1 = Normal (this r1) /\
  subscribers (this r1) = subscribers st ++ [c] /\
  r2 = Res (Normal st) st [].
Proof.
  intros Hnin. cbv zeta. rewrite (subscribe_fresh c st Hnin). cbn [this completion].
  split_and!; [done..|].
  rewrite unsubscribe_registered by (simpl; apply elem_of_app; right; left).
  cbn [subscribers octave velocity holdMode heldKeys activeVoices].
  rewrite indexOf_app_fresh, splice1_last by done.
  by destruct st.
Qed.

Lemma subscribe_unsubscribe_round_trip_witness :
  let st := this (subscribe 1%nat (constructor None None)) in
  unsubscribe 2%nat (this (subscribe 2%nat st)) = Res (Normal st) st [].
Proof.
  destruct (subscribe_unsubscribe_round_trip 2%nat
              (this (subscribe 1%nat (constructor None None))))
    as (_ & _ & H).
  - vm_compute. intros H. inversion H as [|? ? ? H']; inversion H'.
  - exact H.
Defined.

(** X14: in a state the keyboard can reach, [unsubscribe] takes the
    callback out of the list and keeps the others in their order; no
    later emission of the handler calls it, and every later emission
    calls the others as before. *)
Theorem unsubscribe_stops_delivery c st :
  reachable st ->
  let st' := this (unsubscribe c st) in
  subscribers st' = filter (fun x => x <> c) (subscribers st) /\
  (c ∉ subscribers st') /\
  forall e em, em ∈ emitted (keyHandler e st') ->
    deliveries c em = 0%nat /\
    receivers em = filter (fun x => x <> c) (subscribers st).
Proof.
  intros Hreach. cbv zeta.
  pose proof (inv_subscribers _ (reachable_inv _ Hreach)) as Hnd.
  assert (subscribers (this (unsubscribe c st)) =
          filter (fun x => x <> c) (subscribers st)) as Heq.
  { destruct (decide (c ∈ subscribers st)) as [Hin|Hnin].
    - rewrite unsubscribe_registered by done. simpl.
      by apply splice1_indexOf_filter.
    - rewrite unsubscribe_absent by done. simpl.
      by rewrite filter_ne_absent. }
  assert (c ∉ subscribers (this (unsubscribe c st))) as Hnin.
  { rewrite Heq. intros [Hne _]%list_elem_of_filter. by apply Hne. }
  split_and!; [done..|].
  intros e em Hem%keyHandler_receivers. unfold deliveries.
  rewrite Hem. split; [by apply absent_count_zero | done].
Qed.

Lemma subscribe_all_reachable cs : forall st,
  reachable st -> reachable (subscribe_all cs st).
Proof.
  induction cs as [|c cs IH]; intros st H; [done|].
  apply (IH (this (subscribe c st))). by apply reach_subscribe.
Qed.

Lemma unsubscribe_stops_delivery_witness :
  let st := subscribe_all [4; 5; 6]%nat (constructor None None) in
  let st' := this (unsubscribe 5%nat st) in
  subscribers st' = [4; 6]%nat /\
  forall e em, em ∈ emitted (keyHandler e st') ->
    deliveries 5%nat em = 0%nat /\ receivers em = [4; 6]%nat.
Proof.
  destruct (unsubscribe_stops_delivery 5%nat
              (subscribe_all [4; 5; 6]%nat (constructor None None)))
    as (H1 & _ & H2).
  - apply subscribe_all_reachable, reach_new.
  - split; [exact H1 | exact H2].
Defined.

Lemma subscribe_all_snoc cs c st :
  subscribe_all (cs ++ [c]) st = this (subscribe c (subscribe_all cs st)).
Proof. unfold subscribe_all. by rewrite foldl_app. Qed.

(** X15: subscribing the callbacks of a list one after the other to a
    new keyboard leaves each of them registered once, in the order of
    their first subscription; every emission calls them in that order. *)
Theorem subscribe_all_first_come o v cs :
  let st := subscribe_all cs (constructor o v) in
  subscribers st = reverse (remove_dups (reverse cs)) /\
  forall e em, em ∈ emitted (keyHandler e st) ->
    receivers em = reverse (remove_dups (reverse cs)).
Proof.
  cbv zeta.
  assert (subscribers (subscribe_all cs (constructor o v)) =
          reverse (remove_dups (reverse cs))) as Heq.
  { induction cs as [|c cs IH] using rev_ind; [reflexivity|].
    rewrite subscribe_all_snoc, reverse_snoc. simpl remove_dups.
    destruct (decide_rel elem_of c (reverse cs)) as [Hin|Hnin];
      rewrite elem_of_reverse in *.
    - rewrite subscribe_registered; [done|].
      rewrite IH. by apply elem_of_reverse, elem_of_remove_dups, elem_of_reverse.
    - rewrite subscribe_fresh.
      + simpl. rewrite IH. by rewrite reverse_cons.
      + rewrite IH. by rewrite elem_of_reverse, elem_of_remove_dups, elem_of_reverse. }
  split; [done|]. intros e em Hem%keyHandler_receivers. by rewrite Hem.
Qed.

Lemma subscribe_all_first_come_witness :
  subscribers (subscribe_all [3; 1; 3; 2; 1]%nat (constructor None None))
  = [3; 1; 2]%nat.
Proof.
  destruct (subscribe_all_first_come None None [3; 1; 3; 2; 1]%nat) as [H _].
  rewrite H. reflexivity.
Defined.

(** ** Attaching and detaching *)

Lemma filter_ne_absent_pair (x : string * nat) (l : list (string * nat)) :
  x ∉ l -> filter (fun y => y <> x) l = l.
Proof.
  induction l as [|y l IH]; intros Hnin; [done|].
  apply not_elem_of_cons in Hnin as [Hne Hnin].
  rewrite filter_cons_True by congruence. by rewrite IH.
Qed.

Lemma new_function_not_listed ty n w :
  window_ok w -> (functions w <= n)%nat -> (ty, n) ∉ listeners w.
Proof. intros Hok Hle Hin%Hok. lia. Qed.

Lemma activate_listeners w :
  window_ok w ->
  listeners (activate w) =
    listeners w ++ [("keydown", functions w); ("keyup", S (functions w))] /\
  window_ok (activate w).
Proof.
  intros Hok.
  pose proof (new_function_not_listed "keydown" _ w Hok (Nat.le_refl _)) as Hd.
  unfold activate, bind_keyHandler, addEventListener. cbn [listeners functions].
  destruct (decide (("keydown", functions w) ∈ listeners w)) as [?|_];
    [contradiction|].
  cbn [listeners functions].
  destruct (decide (("keyup", S (functions w))
                    ∈ listeners w ++ [("keydown", functions w)])) as [Hin|_].
  - apply elem_of_app in Hin as [Hin%Hok|Hin%list_elem_of_singleton];
      [lia|discriminate].
  - cbn [listeners functions]. rewrite <- app_assoc. split; [done|].
    intros ty f. cbn [listeners functions]. rewrite !elem_of_app, !elem_of_cons.
    intros [Hin%Hok|[[[= _ ->]|Hnil]|[[= _ ->]|Hnil]]]; try lia;
      by apply not_elem_of_nil in Hnil.
Qed.

Lemma deactivate_listeners w :
  window_ok w -> listeners (deactivate w) = listeners w /\ window_ok (deactivate w).
Proof.
  intros Hok. unfold deactivate, bind_keyHandler, removeEventListener.
  cbn [listeners functions].
  rewrite (filter_ne_absent_pair ("keydown", functions w))
    by (apply (new_function_not_listed _ _ w Hok); simpl; lia).
  rewrite (filter_ne_absent_pair ("keyup", S (functions w)))
    by (apply (new_function_not_listed _ _ w Hok); simpl; lia).
  split; [done|]. intros ty f Hin%Hok. cbn [functions]. lia.
Qed.

Lemma window_calls_ok cs : forall w, window_ok w -> window_ok (window_calls cs w).
Proof.
  induction cs as [|c cs IH]; intros w Hok; [done|].
  apply (IH (window_call w c)).
  destruct c; [by apply activate_listeners | by apply deactivate_listeners].
Qed.

(** X16: [deactivate] detaches nothing.  It looks for two function
    objects that it has just created, so that every listener of
    [window], the two added by an earlier [activate] included, stays in
    place. *)
Theorem deactivate_detaches_nothing w :
  window_ok w ->
  listeners (deactivate w) = listeners w /\
  listeners (deactivate (activate w)) =
    listeners w ++ [("keydown", functions w); ("keyup", S (functions w))].
Proof.
  intros Hok. split; [by apply deactivate_listeners|].
  destruct (activate_listeners w Hok) as [Hact Hok'].
  destruct (deactivate_listeners _ Hok') as [Hde _]. by rewrite Hde.
Qed.

Lemma deactivate_detaches_nothing_witness :
  listeners (deactivate (activate (Win [] 0))) = [("keydown", 0%nat); ("keyup", 1%nat)].
Proof.
  destruct (deactivate_detaches_nothing (Win [] 0)) as [_ H].
  - intros ty f Hin. by apply not_elem_of_nil in Hin.
  - exact H.
Defined.

(** X17: after any sequence of [activate] and [deactivate] calls on a
    window without listeners, the number of "keydown" listeners, and of
    "keyup" listeners, is the number of [activate] calls: the handler
    runs that many times for each key event, whatever was deactivated. *)
Theorem listeners_count_activations cs :
  listening "keydown" (window_calls cs (Win [] 0)) = activations cs /\
  listening "keyup" (window_calls cs (Win [] 0)) = activations cs.
Proof.
  assert (forall w, window_ok w ->
            listening "keydown" (window_calls cs w)
              = (listening "keydown" w + activations cs)%nat /\
            listening "keyup" (window_calls cs w)
              = (listening "keyup" w + activations cs)%nat) as Hgen.
  { induction cs as [|c cs IH]; intros w Hok.
    - unfold activations. simpl. lia.
    - cbn [window_calls foldl]. fold (window_calls cs (window_call w c)).
      destruct c.
      + destruct (activate_listeners w Hok) as [Hact Hok'].
        cbn [window_call]. destruct (IH _ Hok') as [-> ->].
        unfold listening, activations. rewrite Hact.
        rewrite filter_cons_True by done. rewrite !filter_app.
        rewrite !length_app. simpl. lia.
      + destruct (deactivate_listeners w Hok) as [Hde Hok'].
        cbn [window_call]. destruct (IH _ Hok') as [-> ->].
        unfold listening, activations. rewrite Hde.
        rewrite filter_cons_False by done. lia. }
  destruct (Hgen (Win [] 0)) as [H1 H2].
  - intros ty f Hin. by apply not_elem_of_nil in Hin.
  - by rewrite H1, H2.
Qed.

(** ** Chords *)



(** ** The voice counter, release by release *)

(** A call made with the voice counter at 0 either emits a note-on with
    voice 0 first, or emits no note-on and leaves the counter at 0. *)
Lemma quiet_or_first_voice e st :
  activeVoices st = 0 ->
  let r := keyHandler e st in
  (exists ev rest, events r = ev :: rest /\ is_note_on ev /\
                   voice (data ev) = Some (Number 0)) \/
  (activeVoices (this r) = 0 /\ Forall (fun ev => ~ is_note_on ev) (events r)).
Proof.
  intros Hz. unfold events.
  apply (keyHandler_cases (fun r =>
    (exists ev rest, payload <$> emitted r = ev :: rest /\ is_note_on ev /\
                     voice (data ev) = Some (Number 0)) \/
    (activeVoices (this r) = 0 /\
     Forall (fun ev => ~ is_note_on ev) (payload <$> emitted r)))); simpl; auto.
  - intros n _ _ _. left. do 2 eexists. split_and!; [reflexivity..|].
    simpl. by rewrite Hz.
  - intros c d _ _ _ _ _ _ _ Hs. right. rewrite commanded_activeVoices.
    split; [done|]. constructor; [|constructor]. apply Hs.
  - intros v n _ _ _ _. right. split.
    + unfold reset_if_idle. case_bool_decide; done.
    + constructor; [|constructor]. discriminate.
  - intros _ _. right. split; [|constructor].
    unfold reset_if_idle. case_bool_decide; done.
  - intros _ _ _. left. do 2 eexists. split_and!; [reflexivity..|].
    simpl. by rewrite Hz.
  - intros v _ _ _ _. right. split; [done|].
    constructor; [|constructor]. discriminate.
Qed.

(** Skipping a prefix without note-on events keeps the first note-on. *)
Lemma first_after_quiet_prefix {A} (P : A -> Prop) (l1 l2 pre post : list A) x :
  Forall (fun y => ~ P y) l1 -> l1 ++ l2 = pre ++ x :: post ->
  Forall (fun y => ~ P y) pre -> P x ->
  exists pre', l2 = pre' ++ x :: post /\ Forall (fun y => ~ P y) pre'.
Proof.
  intros Hl1. revert pre. induction Hl1 as [|y l1 Hy _ IH]; intros pre Heq Hpre Hx.
  - eauto.
  - destruct pre as [|z pre]; simpl in Heq; injection Heq as -> Heq.
    + contradiction.
    + apply (IH pre); [done| by inversion Hpre |done].
Qed.

Lemma first_note_after_reset evs : forall st pre ev post,
  activeVoices st = 0 ->
  payload <$> (run evs st).2 = pre ++ ev :: post ->
  Forall (fun x => ~ is_note_on x) pre -> is_note_on ev ->
  voice (data ev) = Some (Number 0).
Proof.
  induction evs as [|e evs IH]; intros st pre ev post Hz Heq Hpre Hon.
  - simpl in Heq. by destruct pre.
  - simpl in Heq. rewrite fmap_app in Heq.
    destruct (quiet_or_first_voice e st Hz)
      as [(ev0 & rest & Hev0 & Hon0 & Hv0)|[Hz' Hq]].
    + unfold events in Hev0. rewrite Hev0 in Heq.
      destruct pre as [|z pre]; simpl in Heq; injection Heq as -> Heq; [done|].
      inversion Hpre; contradiction.
    + destruct (first_after_quiet_prefix is_note_on _ _ _ _ _ Hq Heq Hpre Hon)
        as (pre' & Heq' & Hpre').
      eapply (IH (this (keyHandler e st))); eauto.
Qed.

(** X19: in any state, one call moves the voice counter up by one,
    emitting a note-on that carries the old counter, or leaves it, or,
    at a release that leaves no key held, puts it back to 0.  After a
    release that completes and leaves no key held the counter is 0,
    and the first note-on of the events that follow carries voice 0. *)
Theorem release_resets_counter st e evs :
  let r := keyHandler e st in
  ((activeVoices (this r) = activeVoices st + 1 /\
    exists ev, ev ∈ events r /\ is_note_on ev /\
               voice (data ev) = Some (Number (activeVoices st))) \/
   activeVoices (this r) = activeVoices st \/
   (type e = "keyup" /\ heldKeys (this r) = ∅ /\ activeVoices (this r) = 0)) /\
  (type e = "keyup" -> completion r = Normal tt -> heldKeys (this r) = ∅ ->
   activeVoices (this r) = 0 /\
   forall pre ev post,
     payload <$> (run evs (this r)).2 = pre ++ ev :: post ->
     Forall (fun x => ~ is_note_on x) pre -> is_note_on ev ->
     voice (data ev) = Some (Number 0)).
Proof.
  cbv zeta.
  assert (type e = "keyup" -> completion (keyHandler e st) = Normal tt ->
          heldKeys (this (keyHandler e st)) = ∅ ->
          activeVoices (this (keyHandler e st)) = 0) as Hreset.
  { apply (keyHandler_cases (fun r =>
      type e = "keyup" -> completion r = Normal tt -> heldKeys (this r) = ∅ ->
      activeVoices (this r) = 0)); simpl; try congruence.
    - intros v n _ _ _ _ _ _. rewrite reset_if_idle_heldKeys.
      apply reset_if_idle_empty.
    - intros _ _ _ _. rewrite reset_if_idle_heldKeys. apply reset_if_idle_empty. }
  split.
  - unfold events.
    apply (keyHandler_cases (fun r =>
      (activeVoices (this r) = activeVoices st + 1 /\
       exists ev, ev ∈ payload <$> emitted r /\ is_note_on ev /\
                  voice (data ev) = Some (Number (activeVoices st))) \/
      activeVoices (this r) = activeVoices st \/
      (type e = "keyup" /\ heldKeys (this r) = ∅ /\ activeVoices (this r) = 0)));
      simpl; auto.
    + intros n _ _ _. left. split; [done|]. eexists. split; [left|done].
    + intros c d _ _ _ _ _ _ _ _. right. left. apply commanded_activeVoices.
    + intros v n Hty _ _ _.
      destruct (decide (delete (toLowerCase (key e)) (heldKeys st) = ∅)) as [He|Hne].
      * right. right. by rewrite reset_if_idle_heldKeys, reset_if_idle_empty.
      * right. left. by rewrite reset_if_idle_busy.
    + intros Hty _.
      destruct (decide (heldKeys st = ∅)) as [He|Hne].
      * right. right. by rewrite reset_if_idle_heldKeys, reset_if_idle_empty.
      * right. left. by rewrite reset_if_idle_busy.
    + intros _ _ _. left. split; [done|]. eexists. split; [left|done].
  - intros Hty Hc He. split; [by apply Hreset|].
    intros pre ev post. apply first_note_after_reset. by apply Hreset.
Qed.

Lemma release_resets_counter_witness :
  let st := (run [press "a"; press "s"; release "s"] (constructor None None)).1 in
  let r := keyHandler (release "a") st in
  activeVoices st = 2 /\ activeVoices (this r) = 0 /\
  forall pre ev post,
    payload <$> (run [press "x"; press "d"] (this r)).2 = pre ++ ev :: post ->
    Forall (fun x => ~ is_note_on x) pre -> is_note_on ev ->
    voice (data ev) = Some (Number 0).
Proof.
  destruct (release_resets_counter
              (run [press "a"; press "s"; release "s"] (constructor None None)).1
              (release "a") [press "x"; press "d"]) as [_ H].
  split; [reflexivity|]. apply H; vm_compute; reflexivity.
Defined.

(** ** Held keys and the read of [note.freq] *)

(** X20: in a state the keyboard can reach, every key of [heldKeys] is
    a key of the note table or the key "constructor"; for such a key
    [keyToNoteMap[key]] is defined, so that no call of the handler
    throws, and every note-off comes with what that read gave. *)
Theorem handler_never_throws st :
  reachable st ->
  (forall k, is_Some (heldKeys st !! k) ->
     is_Some (keyToNoteMap !! k) \/ k = "constructor") /\
  forall e,
    completion (keyHandler e st) = Normal tt /\
    forall ev, ev ∈ events (keyHandler e st) -> is_note_off ev ->
      note (data ev) = read_note (toLowerCase (key e)) /\
      is_Some (note (data ev)).
Proof.
  intros Hreach. pose proof (reachable_inv _ Hreach) as Hinv. split.
  - intros k [v Hv]. by apply (inv_held_notes _ Hinv k v).
  - intros e. unfold events.
    apply (keyHandler_cases (fun r => completion r = Normal tt /\
      forall ev, ev ∈ payload <$> emitted r -> is_note_off ev -> _)); simpl.
    all: try (intros; split; [done|]; intros ev Hev; by apply not_elem_of_nil in Hev).
    + intros n _ _ _. split; [done|].
      intros ev ->%list_elem_of_singleton Hoff. discriminate Hoff.
    + intros c d _ _ _ _ _ _ _ Hs. split; [done|].
      intros ev ->%list_elem_of_singleton Hoff. by apply Hs in Hoff.
    + intros v n _ _ _ Hn. split; [done|].
      intros ev ->%list_elem_of_singleton _. simpl. rewrite Hn. eauto.
    + intros v _ Hv _ Hnone.
      apply (inv_held_notes _ Hinv), held_key_note_defined in Hv.
      rewrite Hnone in Hv. by destruct Hv.
    + intros _ _ _. split; [done|].
      intros ev [->|Hev]%elem_of_cons Hoff; [discriminate Hoff|].
      apply list_elem_of_singleton in Hev as ->. discriminate Hoff.
    + intros v _ _ _ _. split; [done|].
      intros ev ->%list_elem_of_singleton Hoff. discriminate Hoff.
Qed.

Lemma handler_never_throws_witness :
  let st := (run [press "a"; press "constructor"] (constructor None None)).1 in
  (forall k, is_Some (heldKeys st !! k) ->
     is_Some (keyToNoteMap !! k) \/ k = "constructor") /\
  completion (keyHandler (release "constructor") st) = Normal tt.
Proof.
  destruct (handler_never_throws
              (run [press "a"; press "constructor"] (constructor None None)).1)
    as [H1 H2]; [apply run_reachable, reach_new|].
  split; [exact H1 | exact (proj1 (H2 (release "constructor")))].
Defined.

(** ** Keys that mean nothing *)

(** X21: in a state the keyboard can reach, an event whose key in lower
    case is neither a key of one of the two tables nor the name of a
    member of [Object.prototype] emits nothing; a press changes
    nothing, and a release changes nothing but the voice counter, which
    it puts back to 0 when no key is held.  An event whose type is
    neither "keydown" nor "keyup" changes nothing and emits nothing,
    whatever its key. *)
Theorem unmapped_key_ignored st e :
  reachable st ->
  (keyToNoteMap !! toLowerCase (key e) = None ->
   keyToCommandsMap !! toLowerCase (key e) = None ->
   toLowerCase (key e) ∉ object_prototype_names ->
   (type e <> "keyup" -> keyHandler e st = Res (Normal tt) st []) /\
   (type e = "keyup" -> keyHandler e st = Res (Normal tt) (reset_if_idle st) []) /\
   (heldKeys st <> ∅ \/ activeVoices st = 0 ->
    keyHandler e st = Res (Normal tt) st [])) /\
  (type e <> "keydown" -> type e <> "keyup" ->
   keyHandler e st = Res (Normal tt) st []).
Proof.
  intros Hreach. pose proof (reachable_inv _ Hreach) as Hinv.
  split; [|by apply keyHandler_other_type].
  intros Hn Hc Hin.
  assert (read_held (heldKeys st) (toLowerCase (key e)) = None) as Hfree.
  { apply read_held_undefined; [|done].
    destruct (heldKeys st !! toLowerCase (key e)) as [v|] eqn:Hv; [|done].
    apply (inv_held_notes _ Hinv) in Hv as [[n Hv]|Hv].
    - congruence.
    - exfalso. apply Hin. rewrite Hv.
      apply (bool_decide_unpack _). vm_compute. exact I. }
  assert (type e <> "keyup" -> keyHandler e st = Res (Normal tt) st []) as Hdown.
  { intros Hu. destruct (decide (type e = "keydown")) as [Hd|Hd].
    - by apply keyHandler_press_unmapped.
    - by apply keyHandler_other_type. }
  assert (type e = "keyup" ->
          keyHandler e st = Res (Normal tt) (reset_if_idle st) []) as Hup.
  { intros Hu. apply keyHandler_release_ignored; auto. }
  split_and!; [done..|].
  intros Hquiet. destruct (decide (type e = "keyup")) as [Hu|Hu]; [|auto].
  rewrite (Hup Hu). f_equal. destruct Hquiet as [Hne|Hz].
  - by apply reset_if_idle_busy.
  - unfold reset_if_idle. case_bool_decide; [|done].
    destruct st; simpl in *. by subst.
Qed.

Lemma unmapped_key_ignored_witness :
  let st := (run [press "a"; press "x"] (constructor None None)).1 in
  keyHandler (release "Q") st = Res (Normal tt) st [] /\
  keyHandler (press "1") st = Res (Normal tt) st [] /\
  keyHandler (KeyEvent "a" "keypress") st = Res (Normal tt) st [].
Proof.
  assert (reachable (run [press "a"; press "x"] (constructor None None)).1)
    as Hreach by apply run_reachable, reach_new.
  destruct (unmapped_key_ignored _ (release "Q") Hreach) as [H1 _].
  destruct (unmapped_key_ignored _ (press "1") Hreach) as [H2 _].
  destruct (unmapped_key_ignored _ (KeyEvent "a" "keypress") Hreach) as [_ H3].
  split_and!.
  - apply H1; try reflexivity.
    + apply (bool_decide_unpack _). vm_compute. exact I.
    + left. vm_compute. discriminate.
  - apply H2; try reflexivity.
    + apply (bool_decide_unpack _). vm_compute. exact I.
    + left. vm_compute. discriminate.
  - apply H3; discriminate.
Defined.

(** ** Frequencies of the note keys *)

(** X22: with the octave in [-8, 8], every note event that the handler
    emits for a key of the note table, on or off, carries the entry of
    the key and its base frequency times 2 to the octave that the
    keyboard has when the handler is called; for the key "a" at octave
    1 that is 32.70. *)
Theorem note_key_freq_at_call_time e st ev n :
  -8 <= octave st <= 8 ->
  keyToNoteMap !! toLowerCase (key e) = Some n ->
  ev ∈ events (keyHandler e st) -> is_Some (voice (data ev)) ->
  note (data ev) = Some n /\
  (exists l q, n = Key.Entry l q /\
     freq (data ev) = Some (Hz (q * (2 # 1) ^ octave st)%Q)) /\
  (toLowerCase (key e) = "a" -> octave st = 1 ->
   exists f, freq (data ev) = Some (Hz f) /\ (f == 32.70)%Q).
Proof.
  intros _ Hn Hev Hvoice.
  assert (exists l q, n = Key.Entry l q) as (l & q & ->).
  { destruct n as [l q|name]; [eauto|]. by apply note_entry_not_member in Hn. }
  pose proof (note_key_not_inherited _ _ Hn) as Hni.
  assert (ev = note_event "date" (Key.Entry l q) (activeVoices st) "on" st \/
          exists v, ev = note_event "gate" (Key.Entry l q) v "off" st) as Hshape.
  { revert Hev Hvoice. unfold events.
    apply (keyHandler_cases
      (fun r => ev ∈ payload <$> emitted r -> is_Some (voice (data ev)) -> _));
      simpl.
    all: try (intros; exfalso; eapply not_elem_of_nil; eassumption).
    all: try (intros; contradiction).
    - intros n' _ Hn' _ ->%list_elem_of_singleton _. left. congruence.
    - intros c d _ _ _ _ _ Hv _ _ ->%list_elem_of_singleton Hs. simpl in Hs.
      rewrite Hv in Hs. by destruct Hs.
    - intros v n' _ _ _ Hn' ->%list_elem_of_singleton _. right. exists v.
      rewrite (read_note_own _ _ Hn) in Hn'. congruence. }
  assert (note (data ev) = Some (Key.Entry l q) /\
          freq (data ev) = Some (Hz (q * (2 # 1) ^ octave st)%Q)) as [Hnote Hfreq]
    by (destruct Hshape as [->|[v ->]]; done).
  split_and!; [done|eauto|].
  intros Ha Ho. rewrite Ha in Hn.
  assert (Key.Entry l q = Key.Entry "C" 16.35%Q) as [= -> ->]
    by (vm_compute in Hn; congruence).
  eexists. split; [exact Hfreq|]. rewrite Ho. reflexivity.
Qed.

Lemma note_key_freq_at_call_time_witness :
  let ev := note_event "date" (Key.Entry "C" 16.35%Q) 0 "on"
              (constructor (Some 1) None) in
  note (data ev) = Some (Key.Entry "C" 16.35%Q) /\
  (exists f, freq (data ev) = Some (Hz f) /\ (f == 32.70)%Q).
Proof.
  destruct (note_key_freq_at_call_time (press "a") (constructor (Some 1) None)
              (note_event "date" (Key.Entry "C" 16.35%Q) 0 "on"
                 (constructor (Some 1) None)) (Key.Entry "C" 16.35%Q))
    as (H1 & _ & H2).
  - simpl. lia.
  - reflexivity.
  - vm_compute. left.
  - simpl. eauto.
  - split; [exact H1|]. apply H2; reflexivity.
Defined.

(** * Properties of the class with IEEE 754 numbers *)

(** ** The order of the numbers *)

Lemma SFcompare_rank x y :
  x <> S754_nan -> y <> S754_nan ->
  match SFcompare x y with
  | Some Lt => rank_lt (rank x) (rank y)
  | Some Eq => rank_eq (rank x) (rank y)
  | Some Gt => rank_lt (rank y) (rank x)
  | None => False
  end.
Proof.
  destruct x as [sx|sx| |sx mx ex], y as [sy|sy| |sy my ey];
    try congruence; intros _ _; simpl;
    try destruct sx; try destruct sy; simpl; try lia.
  - destruct (Z.compare_spec ex ey); try lia.
    change (Pos.compare_cont Eq mx my) with (Pos.compare mx my).
    destruct (Pos.compare_spec mx my); simpl; lia.
  - destruct (Z.compare_spec ex ey); try lia.
    change (Pos.compare_cont Eq mx my) with (Pos.compare mx my).
    destruct (Pos.compare_spec mx my); simpl; lia.
Qed.

Lemma SFcompare_nan_r x : SFcompare x S754_nan = None.
Proof. by destruct x. Qed.

Lemma SFltb_rank a b :
  a <> S754_nan -> b <> S754_nan ->
  SFltb a b = true <-> rank_lt (rank a) (rank b).
Proof.
  intros Ha Hb. pose proof (SFcompare_rank a b Ha Hb) as H.
  unfold SFltb. unfold rank_lt, rank_eq in *.
  destruct (rank a) as [[a1 a2] a3], (rank b) as [[b1 b2] b3].
  destruct (SFcompare a b) as [[| |]|]; try contradiction;
    (split; [intros Ht; try discriminate Ht|intros Ht]); try reflexivity; lia.
Qed.

Lemma SFleb_rank a b :
  a <> S754_nan -> b <> S754_nan ->
  SFleb a b = true <-> rank_lt (rank a) (rank b) \/ rank_eq (rank a) (rank b).
Proof.
  intros Ha Hb. pose proof (SFcompare_rank a b Ha Hb) as H.
  unfold SFleb. unfold rank_lt, rank_eq in *.
  destruct (rank a) as [[a1 a2] a3], (rank b) as [[b1 b2] b3].
  destruct (SFcompare a b) as [[| |]|]; try contradiction;
    (split; [intros Ht; try discriminate Ht|intros Ht]); try reflexivity; lia.
Qed.

Lemma is_nan_Prim2SF x : is_nan x = true <-> Prim2SF x = S754_nan.
Proof.
  split.
  - intros H. unfold Prim2SF. rewrite H. reflexivity.
  - intros H. unfold is_nan. rewrite FloatAxioms.eqb_spec, H. reflexivity.
Qed.

Lemma not_nan_Prim2SF x : is_nan x = false <-> Prim2SF x <> S754_nan.
Proof.
  rewrite <- is_nan_Prim2SF. destruct (is_nan x); split; congruence.
Qed.

Lemma ltb_place x y :
  (x <? y)%float = true <->
  is_nan x = false /\ is_nan y = false /\ rank_lt (place x) (place y).
Proof.
  rewrite FloatAxioms.ltb_spec. unfold place.
  destruct (is_nan x) eqn:Hx.
  { apply is_nan_Prim2SF in Hx. rewrite Hx. simpl. intuition discriminate. }
  destruct (is_nan y) eqn:Hy.
  { apply is_nan_Prim2SF in Hy. rewrite Hy. unfold SFltb.
    rewrite SFcompare_nan_r. intuition discriminate. }
  apply not_nan_Prim2SF in Hx, Hy. rewrite (SFltb_rank _ _ Hx Hy). tauto.
Qed.

Lemma leb_place x y :
  (x <=? y)%float = true <->
  is_nan x = false /\ is_nan y = false /\
  (rank_lt (place x) (place y) \/ rank_eq (place x) (place y)).
Proof.
  rewrite FloatAxioms.leb_spec. unfold place.
  destruct (is_nan x) eqn:Hx.
  { apply is_nan_Prim2SF in Hx. rewrite Hx. simpl. intuition discriminate. }
  destruct (is_nan y) eqn:Hy.
  { apply is_nan_Prim2SF in Hy. rewrite Hy. unfold SFleb.
    rewrite SFcompare_nan_r. intuition discriminate. }
  apply not_nan_Prim2SF in Hx, Hy. rewrite (SFleb_rank _ _ Hx Hy). tauto.
Qed.

Lemma ltb_false_place x y :
  is_nan x = false -> is_nan y = false ->
  (x <? y)%float = false <-> ~ rank_lt (place x) (place y).
Proof.
  intros Hx Hy. pose proof (ltb_place x y) as H.
  destruct (x <? y)%float; intuition congruence.
Qed.











(** ** [Math.max], [Math.min] and [limitTo] *)

Lemma is_pos_zero_place x :
  Double.is_pos_zero x = true -> is_nan x = false /\ place x = (0, 0, 0).
Proof.
  unfold Double.is_pos_zero, place. rewrite classify_spec, not_nan_Prim2SF.
  unfold SF64classify, SFclassify.
  destruct (Prim2SF x) as [[|]|[|]| |[|] m e]; try discriminate; try done;
    destruct (Z.pos (digits2_pos m) =? prec); discriminate.
Qed.

Lemma is_neg_zero_place x :
  Double.is_neg_zero x = true -> is_nan x = false /\ place x = (0, 0, 0).
Proof.
  unfold Double.is_neg_zero, place. rewrite classify_spec, not_nan_Prim2SF.
  unfold SF64classify, SFclassify.
  destruct (Prim2SF x) as [[|]|[|]| |[|] m e]; try discriminate; try done;
    destruct (Z.pos (digits2_pos m) =? prec); discriminate.
Qed.

Lemma Math_max_place x y :
  is_nan x = false -> is_nan y = false ->
  (Double.Math_max x y = x /\ ~ rank_lt (place x) (place y)) \/
  (Double.Math_max x y = y /\ ~ rank_lt (place y) (place x)).
Proof.
  intros Hx Hy. unfold Double.Math_max. rewrite Hx, Hy. simpl.
  destruct (Double.is_neg_zero x && Double.is_pos_zero y) eqn:Hz.
  - apply andb_true_iff in Hz as [[_ H1]%is_neg_zero_place [_ H2]%is_pos_zero_place].
    right. split; [done|]. rewrite H1, H2. simpl. lia.
  - destruct (x <? y)%float eqn:Hlt.
    + right. split; [done|]. apply ltb_place in Hlt as (_ & _ & Hlt).
      unfold rank_lt in *. destruct (place x) as [[? ?] ?], (place y) as [[? ?] ?]. lia.
    + left. split; [done|]. by apply ltb_false_place.
Qed.

Lemma Math_min_place x y :
  is_nan x = false -> is_nan y = false ->
  (Double.Math_min x y = x /\ ~ rank_lt (place y) (place x)) \/
  (Double.Math_min x y = y /\ ~ rank_lt (place x) (place y)).
Proof.
  intros Hx Hy. unfold Double.Math_min. rewrite Hx, Hy. simpl.
  destruct (Double.is_pos_zero x && Double.is_neg_zero y) eqn:Hz.
  - apply andb_true_iff in Hz as [[_ H1]%is_pos_zero_place [_ H2]%is_neg_zero_place].
    right. split; [done|]. rewrite H1, H2. simpl. lia.
  - destruct (y <? x)%float eqn:Hlt.
    + right. split; [done|]. apply ltb_place in Hlt as (_ & _ & Hlt).
      unfold rank_lt in *. destruct (place x) as [[? ?] ?], (place y) as [[? ?] ?]. lia.
    + left. split; [done|]. by apply ltb_false_place.
Qed.

Lemma Math_max_nan x y :
  is_nan x = true \/ is_nan y = true -> Double.Math_max x y = nan.
Proof.
  intros H. unfold Double.Math_max.
  assert (is_nan x || is_nan y = true) as -> by (destruct H as [-> | ->]; [done|apply orb_true_r]).
  done.
Qed.

Lemma Math_min_nan x y :
  is_nan x = true \/ is_nan y = true -> Double.Math_min x y = nan.
Proof.
  intros H. unfold Double.Math_min.
  assert (is_nan x || is_nan y = true) as -> by (destruct H as [-> | ->]; [done|apply orb_true_r]).
  done.
Qed.

(** ** The settings in the handler *)

Lemma double_keyHandler_settings pow e st :
  let r := Double.keyHandler pow e st in
  Double.octave (Double.this r)
    = octave_after (pressed_command e) (Double.octave st) /\
  Double.velocity (Double.this r)
    = velocity_after (pressed_command e) (Double.velocity st).
Proof.
  cbv zeta. unfold pressed_command. double_unfold.
  generalize (Double.read_note (toLowerCase (key e))) as n. intros n.
  destruct (decide (type e = "keydown")) as [Hd|Hd];
    [|destruct (decide (type e = "keyup")) as [Hu|Hu]].
  - rewrite Hd. rewrite bool_decide_eq_true_2 by done.
    rewrite (bool_decide_eq_false_2 ("keydown" = "keyup")) by discriminate.
    destruct (keyToCommandsMap !! toLowerCase (key e)) as [c|] eqn:Hc.
    + rewrite (read_own _ _ _ Hc).
      destruct (command_cases _ _ Hc) as [->|[->|[->|[->| ->]]]];
        unfold Double.command_data, Double.command_switch; double_run;
        destruct n; simpl;
        destruct (negb (bool_decide (is_Some (Double.heldKeys st !! toLowerCase (key e))))
                  || Double.holdMode st); simpl; done.
    + assert (exists oc, read keyToCommandsMap (toLowerCase (key e)) = oc
                /\ (oc = None \/ exists name, oc = Some (Proto name)))
        as (oc & -> & Hoc).
      { unfold read. rewrite Hc. case_bool_decide; eauto. }
      destruct Hoc as [->|[name ->]];
        unfold Double.command_data; double_run;
        destruct n; simpl;
        destruct (negb (bool_decide (is_Some (Double.heldKeys st !! toLowerCase (key e))))
                  || Double.holdMode st); simpl; done.
  - rewrite Hu.
    rewrite (bool_decide_eq_false_2 ("keyup" = "keydown")) by discriminate.
    rewrite bool_decide_eq_true_2 by done.
    double_run.
    destruct (Double.read_held (Double.heldKeys st) (toLowerCase (key e))); simpl;
      [destruct (Double.holdMode st); simpl; [|destruct n; simpl]|];
      try case_bool_decide; done.
  - rewrite !bool_decide_eq_false_2 by done. done.
Qed.

(** ** Clamping *)

Lemma is_nan_nan : is_nan nan = true.
Proof. reflexivity. Qed.

Lemma double_limitTo_nan num lo hi :
  is_nan num = true \/ is_nan lo = true \/ is_nan hi = true ->
  Double.limitTo num lo hi = nan.
Proof.
  intros H. unfold Double.limitTo. destruct H as [H|[H|H]].
  - rewrite (Math_max_nan num lo) by auto. by apply Math_min_nan; left.
  - rewrite (Math_max_nan num lo) by auto. by apply Math_min_nan; left.
  - apply Math_min_nan. by right.
Qed.

Lemma double_limitTo_cases num lo hi :
  is_nan num = false -> (lo <=? hi)%float = true ->
  let r := Double.limitTo num lo hi in
  is_nan r = false /\
  (r = num \/ r = lo \/ r = hi) /\
  ~ rank_lt (place r) (place lo) /\ ~ rank_lt (place hi) (place r) /\
  (rank_lt (place lo) (place num) -> rank_lt (place num) (place hi) -> r = num) /\
  (rank_lt (place num) (place lo) -> rank_lt (place lo) (place hi) -> r = lo) /\
  (rank_lt (place hi) (place num) -> r = hi).
Proof.
  intros Hn [Hlo [Hhi Hle]]%leb_place. unfold Double.limitTo. cbv zeta.
  destruct (Math_max_place num lo Hn Hlo) as [[-> H1]|[-> H1]];
    [destruct (Math_min_place num hi Hn Hhi) as [[-> H2]|[-> H2]]
    |destruct (Math_min_place lo hi Hlo Hhi) as [[-> H2]|[-> H2]]];
    (split; [done|]); (split; [tauto|]);
    split_and!; intros; try reflexivity; try (exfalso; by_places); by_places.
Qed.

Lemma double_limitTo_range num lo hi :
  is_nan num = false -> (lo <=? hi)%float = true ->
  (lo <=? Double.limitTo num lo hi)%float = true /\
  (Double.limitTo num lo hi <=? hi)%float = true.
Proof.
  intros Hn Hle.
  destruct (double_limitTo_cases num lo hi Hn Hle) as (Hr & _ & H1 & H2 & _).
  apply leb_place in Hle as (Hlo & Hhi & Hle).
  rewrite !leb_place. split_and!; try done; by_places.
Qed.

(** X1: [limitTo] on numbers.  When an argument is [NaN] the result is
    [NaN].  Otherwise, for bounds in order, the result lies within the
    bounds; it is the input when that lies strictly between them, the
    lower bound for a smaller input (the bounds being different) and the
    upper bound for a larger one. *)
Theorem limitTo_clamps num lo hi :
  (is_nan num = true \/ is_nan lo = true \/ is_nan hi = true ->
   is_nan (Double.limitTo num lo hi) = true) /\
  (is_nan num = false -> (lo <=? hi)%float = true ->
   (lo <=? Double.limitTo num lo hi)%float = true /\
   (Double.limitTo num lo hi <=? hi)%float = true /\
   ((lo <? num)%float = true -> (num <? hi)%float = true ->
    Double.limitTo num lo hi = num) /\
   ((num <? lo)%float = true -> (lo <? hi)%float = true ->
    Double.limitTo num lo hi = lo) /\
   ((hi <? num)%float = true -> Double.limitTo num lo hi = hi)).
Proof.
  split.
  - intros H. by rewrite double_limitTo_nan.
  - intros Hn Hle.
    destruct (double_limitTo_range num lo hi Hn Hle) as [H1 H2].
    destruct (double_limitTo_cases num lo hi Hn Hle)
      as (_ & _ & _ & _ & H3 & H4 & H5).
    split_and!; try done.
    + intros (_ & _ & Ha)%ltb_place (_ & _ & Hb)%ltb_place. auto.
    + intros (_ & _ & Ha)%ltb_place (_ & _ & Hb)%ltb_place. auto.
    + intros (_ & _ & Ha)%ltb_place. auto.
Qed.

Lemma limitTo_clamps_witness :
  Double.limitTo 9 (-8) 8 = 8%float /\
  Double.limitTo (-0.5) 0 127 = 0%float /\
  Double.limitTo infinity 0 127 = 127%float /\
  Double.limitTo 2.5 (-8) 8 = 2.5%float /\
  is_nan (Double.limitTo nan (-8) 8) = true.
Proof.
  destruct (limitTo_clamps 9 (-8) 8) as [_ H1].
  destruct (limitTo_clamps (-0.5) 0 127) as [_ H2].
  destruct (limitTo_clamps infinity 0 127) as [_ H3].
  destruct (limitTo_clamps 2.5 (-8) 8) as [_ H4].
  destruct (limitTo_clamps nan (-8) 8) as [H5 _].
  split_and!.
  - apply H1; reflexivity.
  - apply H2; reflexivity.
  - apply H3; reflexivity.
  - apply H4; reflexivity.
  - apply H5. left. reflexivity.
Defined.

(** ** Octave and velocity *)















(** ** Integers as numbers *)

Example number_1 :
  number 1 = 1%float /\ number (-8) = (-8)%float /\ number 127 = 127%float.
Proof. split_and!; reflexivity. Qed.

Lemma in_seqZ_range (P : Z -> Prop) lo n :
  Forall P (seqZ lo n) -> forall z, lo <= z < lo + n -> P z.
Proof.
  intros H z Hz. rewrite Forall_forall in H. apply H. by apply elem_of_seqZ.
Qed.

Lemma octave_steps_agree o :
  -8 <= o <= 8 ->
  Double.limitTo (number o + 1) (-8) 8 = number (limitTo (o + 1) (-8) 8) /\
  Double.limitTo (number o - 1) (-8) 8 = number (limitTo (o - 1) (-8) 8).
Proof.
  intros Ho.
  assert (Forall (fun o =>
    Double.limitTo (number o + 1) (-8) 8 = number (limitTo (o + 1) (-8) 8) /\
    Double.limitTo (number o - 1) (-8) 8 = number (limitTo (o - 1) (-8) 8))
    (seqZ (-8) 17)) as H by (vm_compute seqZ; repeat (constructor; [split; vm_compute; reflexivity|]); constructor).
  apply (in_seqZ_range _ _ _ H). lia.
Qed.

Lemma velocity_steps_agree v :
  0 <= v <= 127 ->
  Double.limitTo (number v + 5) 0 127 = number (limitTo (v + 5) 0 127) /\
  Double.limitTo (number v - 5) 0 127 = number (limitTo (v - 5) 0 127).
Proof.
  intros Hv.
  assert (Forall (fun v =>
    Double.limitTo (number v + 5) 0 127 = number (limitTo (v + 5) 0 127) /\
    Double.limitTo (number v - 5) 0 127 = number (limitTo (v - 5) 0 127))
    (seqZ 0 128)) as H by (vm_compute seqZ; repeat (constructor; [split; vm_compute; reflexivity|]); constructor).
  apply (in_seqZ_range _ _ _ H). lia.
Qed.

Lemma reset_if_idle_settings st :
  octave (reset_if_idle st) = octave st /\
  velocity (reset_if_idle st) = velocity st.
Proof. unfold reset_if_idle. case_bool_decide; done. Qed.

(** A call changes octave and velocity as the command of the press
    says, and not otherwise. *)
Lemma keyHandler_settings e st :
  let r := keyHandler e st in
  octave (this r) = octave (settled (pressed_command e) st) /\
  velocity (this r) = velocity (settled (pressed_command e) st).
Proof.
  cbv zeta. unfold pressed_command.
  apply (keyHandler_cases (fun r =>
    octave (this r) = octave (settled
      (if bool_decide (type e = "keydown")
       then keyToCommandsMap !! toLowerCase (key e) else None) st) /\
    velocity (this r) = velocity (settled
      (if bool_decide (type e = "keydown")
       then keyToCommandsMap !! toLowerCase (key e) else None) st))); simpl.
  - intros Hd _. by rewrite bool_decide_eq_false_2.
  - intros n Hd Hn _. by rewrite bool_decide_eq_true_2, (note_key_no_command _ _ Hn).
  - intros n v Hd Hn _ _.
    by rewrite bool_decide_eq_true_2, (note_key_no_command _ _ Hn).
  - intros Hd _ Hc _. by rewrite bool_decide_eq_true_2, Hc.
  - intros c d Hd Hc _ _ _ _ _ _. by rewrite bool_decide_eq_true_2, Hc.
  - intros v n Hu _ _ _. rewrite bool_decide_eq_false_2 by congruence.
    by destruct (reset_if_idle_settings (released (toLowerCase (key e)) st))
      as [-> ->].
  - intros v Hu _ _ _. by rewrite bool_decide_eq_false_2 by congruence.
  - intros Hu _. rewrite bool_decide_eq_false_2 by congruence.
    apply reset_if_idle_settings.
  - intros Hd Hin _. by rewrite bool_decide_eq_true_2, (inherited_no_command _ Hin).
  - intros v Hd Hin _ _.
    by rewrite bool_decide_eq_true_2, (inherited_no_command _ Hin).
Qed.

Lemma settled_agrees c o v st :
  (c = None \/ exists k, keyToCommandsMap !! k = c) ->
  octave st = o -> velocity st = v ->
  -8 <= o <= 8 -> 0 <= v <= 127 ->
  (-8 <= octave (settled c st) <= 8 /\ 0 <= velocity (settled c st) <= 127) /\
  octave_after c (number o) = number (octave (settled c st)) /\
  velocity_after c (number v) = number (velocity (settled c st)).
Proof.
  intros Hc <- <- Ho Hv.
  destruct (octave_steps_agree _ Ho) as [Hou Hod].
  destruct (velocity_steps_agree _ Hv) as [Hvu Hvd].
  destruct c as [w|]; [|done].
  destruct Hc as [|[k Hk]]; [done|].
  destruct (command_cases _ _ Hk) as [->|[->|[->|[->| ->]]]];
    unfold settled, commanded; simpl; unfold limitTo in *; (split; [lia|done]).
Qed.

(** X23: on a keyboard whose octave is an integer of [-8, 8] and whose
    velocity is an integer of [0, 127], the handler with binary64
    numbers and the handler with integers compute the same octave and
    the same velocity, call after call: the sums and the clamps of the
    commands are exact. *)
Theorem integer_settings_agree pow evs : forall st dst,
  -8 <= octave st <= 8 -> 0 <= velocity st <= 127 ->
  Double.octave dst = number (octave st) ->
  Double.velocity dst = number (velocity st) ->
  let st' := (run evs st).1 in
  let dst' := (Double.run pow evs dst).1 in
  (-8 <= octave st' <= 8 /\ 0 <= velocity st' <= 127) /\
  Double.octave dst' = number (octave st') /\
  Double.velocity dst' = number (velocity st').
Proof.
  induction evs as [|e evs IH]; intros st dst Ho Hv Hdo Hdv; cbv zeta.
  - done.
  - cbn [run Double.run fst].
    destruct (keyHandler_settings e st) as [Ho' Hv'].
    destruct (double_keyHandler_settings pow e dst) as [Hdo' Hdv'].
    destruct (settled_agrees (pressed_command e) (octave st) (velocity st) st)
      as ([Hor Hvr] & Hoa & Hva); [|done..|].
    { unfold pressed_command. case_bool_decide; eauto. }
    apply IH; rewrite ?Ho', ?Hv', ?Hdo', ?Hdv', ?Hdo, ?Hdv; done.
Qed.

Lemma integer_settings_agree_witness :
  let evs := [press "x"; press "a"; press "c"; release "a"; press "x"] in
  let st' := (run evs (constructor None None)).1 in
  let dst' := (Double.run (fun _ y => y) evs (Double.constructor None None)).1 in
  octave st' = 3 /\ velocity st' = 95 /\
  Double.octave dst' = 3%float /\ Double.velocity dst' = 95%float.
Proof.
  destruct (integer_settings_agree (fun _ y => y)
              [press "x"; press "a"; press "c"; release "a"; press "x"]
              (constructor None None) (Double.constructor None None))
    as (_ & H1 & H2); [simpl; lia|simpl; lia|reflexivity|reflexivity|].
  split; [reflexivity|]. split; [reflexivity|]. split; [exact H1 | exact H2].
Defined.

(** ** Scenarios with binary64 numbers *)

(** With a [Math.pow] that gives 2 for [Math.pow(2, 1)], the press of
    "a" on a new keyboard carries the frequency 32.7: doubling is exact,
    and 32.7 denotes the double of what 16.35 denotes. *)
#[local] Set Warnings "-inexact-float".
Example double_press_a pow :
  pow 2%float 1%float = 2%float ->
  Double.payload <$> Double.emitted
    (Double.keyHandler pow (press "a") (Double.constructor None None)) =
  [Double.NoteData "date"
     (Double.ActionData (Some (Double.Key.Entry "C" 16.35)) (Some 32.7%float)
        (Some (Double.Number 0)) (Some (Double.SString "on")) None)].
Proof.
  intros Hpow. vm_compute. rewrite Hpow. reflexivity.
Qed.
#[local] Set Warnings "inexact-float".

(** A keyboard built with a fraction as its octave keeps the fraction
    while it is in range; one built with an infinite velocity is at the
    bound after the first velocity command. *)
Example double_fraction_and_infinity pow :
  let st := Double.constructor (Some 0.5%float) (Some infinity) in
  Double.octave (Double.run pow [press "x"; press "x"] st).1 = 2.5%float /\
  Double.velocity (Double.run pow [press "c"] st).1 = 127%float.
Proof. vm_compute. split; reflexivity. Qed.
